(** * lightct: calibration and reconstruction pipeline

    A shallow embedding of [lightct/load_scan.py] (class [LoadProjections])
    and of the older [lightct/tomo_scan.py] (class [TomoScan]).

    Conventions.
    - Python integers are [Z]; sequences are lists; Python slicing and
      indexing (negative positions count from the end) are written out in
      [Py].
    - float64 samples are idealised as exact rationals [Q].  A value
      returned by [ndarray.std] is kept as an exact square root [Sqrt v]
      (the real number √v) and two such values are compared through their
      radicands.
    - A method is a function from the object's fields to the fields after
      the call together with its outcome: a return value or the exception
      raised.  Fields written before an exception stay written.
    - A numpy array of shape (height, width, frames) is a list of frames,
      a frame a list of rows.
    - Plotting, printing and file output do not feed back into the fields
      and are left out. *)

From Stdlib Require Import ZArith QArith Qround Qabs Qreals List Bool Lia Lra Reals PeanoNat.
Import ListNotations.

Set Implicit Arguments.
Local Open Scope Z_scope.

(** ** Python values, exceptions, slices *)

Module Py.

Inductive exn : Type :=
| AssertionError
| IndexError
| ValueError
| TypeError
| ZeroDivisionError.

Inductive outcome (A : Type) : Type :=
| Return (a : A)
| Raise (e : exn).

Arguments Return {A} a.
Arguments Raise {A} e.

Definition obind {A B} (o : outcome A) (k : A -> outcome B) : outcome B :=
  match o with
  | Return a => k a
  | Raise e => Raise e
  end.

(** [[f(x) for x in l]], stopping at the first exception *)
Fixpoint map_outcome {A B} (f : A -> outcome B) (l : list A) : outcome (list B) :=
  match l with
  | [] => Return []
  | x :: l' => obind (f x) (fun y => obind (map_outcome f l') (fun ys => Return (y :: ys)))
  end.

(** [len(l)] *)
Definition len {A} (l : list A) : Z := Z.of_nat (length l).

(** Position of a slice bound in a sequence of length [n]. *)
Definition bound (n i : Z) : Z :=
  if i <? 0 then Z.max 0 (n + i) else Z.min i n.

(** [l[lo:hi]]; [None] is an omitted bound. *)
Definition slice {A} (lo hi : option Z) (l : list A) : list A :=
  let n := len l in
  let a := match lo with Some i => bound n i | None => 0 end in
  let b := match hi with Some j => bound n j | None => n end in
  firstn (Z.to_nat (b - a)) (skipn (Z.to_nat a) l).

(** [l[i]] *)
Definition get {A} (l : list A) (i : Z) : outcome A :=
  let j := if i <? 0 then len l + i else i in
  if j <? 0 then Raise IndexError
  else match nth_error l (Z.to_nat j) with
       | Some x => Return x
       | None => Raise IndexError
       end.

(** [range(a, b)] *)
Definition range (a b : Z) : list Z :=
  map (fun k => a + Z.of_nat k) (seq 0 (Z.to_nat (b - a))).

(** [zip]-wise combination of two sequences *)
Fixpoint map2 {A B C} (f : A -> B -> C) (l : list A) (m : list B) : list C :=
  match l, m with
  | a :: l', b :: m' => f a b :: map2 f l' m'
  | _, _ => []
  end.

End Py.

Import Py.

(** ** Numeric primitives of numpy and scipy *)

Module Np.

Local Open Scope Q_scope.

Definition Qltb (a b : Q) : bool := negb (Qle_bool b a).

Definition sum (l : list Q) : Q := fold_right Qplus 0 l.

Definition mean (l : list Q) : Q := sum l / inject_Z (len l).

Definition variance (l : list Q) : Q :=
  let m := mean l in mean (map (fun x => (x - m) * (x - m)) l).

(** An exact square root: [Sqrt v] stands for the real number √v. *)
Inductive sd : Type := Sqrt (v : Q).

Definition radicand (s : sd) : Q := let 'Sqrt v := s in v.

(** [a.std()] over all entries of [a].  For an array without entries
    numpy answers nan; here the quotient by zero is 0 and the answer √0. *)
Definition std (l : list Q) : sd := Sqrt (variance l).

(** [<] on square roots of non-negative rationals *)
Definition sd_ltb (a b : sd) : bool := Qltb (radicand a) (radicand b).

Definition sd_zero (a : sd) : Prop := radicand a == 0.

(** A frame is a list of rows; a stack is the list of its frames. *)
Abbreviation frame := (list (list Q)) (only parsing).
Abbreviation stack := (list (list (list Q))) (only parsing).

Definition flatten (f : frame) : list Q := concat f.

(** [a - b], entry by entry *)
Definition frame_sub (a b : frame) : frame := map2 (map2 Qminus) a b.

(** [f[:, lo:hi]] *)
Definition cols (lo hi : option Z) (f : frame) : frame := map (slice lo hi) f.

(** [np.fliplr] *)
Definition fliplr (f : frame) : frame := map (@rev Q) f.

(** [np.linspace(0, stop, num)]: [num] evenly spaced samples, both ends
    included; a negative [num] is refused. *)
Definition linspace_entry (stop : Q) (num : Z) (k : nat) : Q :=
  let step := stop / inject_Z (num - 1) in
  if (1 <? num)%Z && (Z.of_nat k =? num - 1)%Z then stop
  else inject_Z (Z.of_nat k) * step.

Definition linspace (stop : Q) (num : Z) : outcome (list Q) :=
  if (num <? 0)%Z then Raise ValueError
  else Return (map (linspace_entry stop num) (seq 0 (Z.to_nat num))).

(** [np.linspace(0, stop, num, dtype=int)]: the samples rounded down. *)
Definition linspace_int (stop : Q) (num : Z) : outcome (list Q) :=
  obind (linspace stop num)
        (fun l => Return (map (fun x => inject_Z (Qfloor x)) l)).

(** [d.take(i, mode='clip')] *)
Definition take_clip (d : list sd) (i : Z) : sd :=
  nth (Z.to_nat (Z.max 0 (Z.min i (len d - 1)))) d (Sqrt 0).

(** Entry [i] is strictly below its neighbours at distance 1..[order] on
    both sides, positions beyond an end being clipped to that end. *)
Definition qualifies (order : Z) (d : list sd) (i : nat) : bool :=
  forallb (fun k => sd_ltb (take_clip d (Z.of_nat i)) (take_clip d (Z.of_nat i + k))
                    && sd_ltb (take_clip d (Z.of_nat i)) (take_clip d (Z.of_nat i - k)))
          (range 1 (order + 1)).

(** [scipy.signal.argrelmin(d, order=order)[0]]: the positions of the
    relative minima, ascending; an order below 1 is refused. *)
Definition argrelmin (d : list sd) (order : Z) : outcome (list nat) :=
  if (order <? 1)%Z then Raise ValueError
  else Return (filter (qualifies order d) (seq 0 (length d))).

(** The scan of [np.argmin]: [l] holds the entries from position [i] on,
    [best] is the first position of the smallest entry [bv] met so far. *)
Fixpoint argmin_from (i : nat) (best : nat) (bv : sd) (l : list sd) : nat :=
  match l with
  | [] => best
  | y :: l' => if sd_ltb y bv then argmin_from (S i) i y l'
               else argmin_from (S i) best bv l'
  end.

(** [np.argmin(d)]: first position of the minimum; empty input is refused. *)
Definition argmin (d : list sd) : outcome nat :=
  match d with
  | [] => Raise ValueError
  | x :: l => Return (argmin_from 1 0 x l)
  end.

End Np.

Import Np.

(** ** Collaborators outside the two source files

    The block-mean and median primitives, the inverse radon transforms,
    the float logarithm and the trigonometric projection come from
    skimage, scipy and numpy.  They are parameters of the development:
    every theorem holds for whatever they compute. *)

Class Externals : Type := {
  (** [skimage.transform.downscale_local_mean(frame, (fy, fx))] *)
  downscale_local_mean : frame -> Z * Z -> frame;
  (** [scipy.signal.medfilt(frame, kernel_size=k)] *)
  medfilt : frame -> Z -> outcome frame;
  (** [scipy.ndimage.median_filter(a, size=k)] *)
  median_filter : list (list Q) -> Z -> list (list Q);
  (** [skimage.transform.iradon(sino, theta, filter_name=None, circle=True)] *)
  iradon : list (list Q) -> option (list Q) -> outcome frame;
  (** [skimage.transform.iradon_sart(sino, theta, image)] *)
  iradon_sart : list (list Q) -> option (list Q) -> option frame -> outcome frame;
  (** [-np.log(t + 0.00000001)] *)
  neg_log : Q -> Q;
  (** [(x*np.cos(np.deg2rad(a)) - y*np.sin(np.deg2rad(a))).astype('int')]
      for the angle [a] in degrees *)
  project : Q -> Z -> Z -> Z;
  (** Modelled from the spec: [lightct.plot_funcs.SetAngleInteract] is not
      among the sources; the spec treats it as asking the operator for a
      value.  Given the stack and the reference index it answers with the
      angle sequence and the number of images. *)
  ask_operator : stack -> Z -> option (list Q) * option Z;
  (** The slider position at which the operator presses 'Save - 360' in
      the interactive window of [tomo_scan.py], if at all. *)
  saved_slider : stack -> Z -> option Z
}.

(** ** Methods as state transformers *)

Module Method.
Section WithState.
Variable S : Type.

Definition M (A : Type) : Type := S -> S * outcome A.

Definition ret {A} (a : A) : M A := fun s => (s, Return a).

Definition bind {A B} (m : M A) (k : A -> M B) : M B :=
  fun s => let (s', o) := m s in
           match o with
           | Return a => k a s'
           | Raise e => (s', Raise e)
           end.

Definition lift {A} (o : outcome A) : M A := fun s => (s, o).

Definition read {A} (f : S -> A) : M A := fun s => (s, Return (f s)).

Definition write (f : S -> S) : M unit := fun s => (f s, Return tt).

Definition assert (b : bool) : M unit :=
  lift (if b then Return tt else Raise AssertionError).

(** [for x in l: body(x)] *)
Fixpoint for_each {A} (l : list A) (body : A -> M unit) : M unit :=
  match l with
  | [] => ret tt
  | x :: l' => bind (body x) (fun _ => for_each l' body)
  end.
End WithState.

Arguments ret {S A} a.
Arguments lift {S A} o.
Arguments read {S A} f.
Arguments write {S} f.
Arguments assert {S} b.

Declare Scope method_scope.
Delimit Scope method_scope with method.
Notation "x <- m ;; k" := (bind m (fun x => k))
  (at level 61, m at next level, right associativity) : method_scope.
Notation "m ;; k" := (bind m (fun _ => k))
  (at level 61, right associativity) : method_scope.

(** State after a call and its outcome. *)
Definition state_after {S A} (r : S * outcome A) : S := fst r.
Definition outcome_of {S A} (r : S * outcome A) : outcome A := snd r.
End Method.

Import Method.

(** [None] where Python would meet [None] in arithmetic. *)
Definition not_none {A} (o : option A) : outcome A :=
  match o with
  | Some a => Return a
  | None => Raise TypeError
  end.

(** The difference curve of automatic angle calibration: for every frame
    from [p0] on, the standard deviation of its difference to [ref]. *)
Definition difference_curve (s : stack) (p0 : Z) (ref : frame) : list sd :=
  map (fun f => std (flatten (frame_sub f ref))) (slice (Some p0) None s).

(** The curve recorded by automatic centre calibration: for every shift
    [i] in [shifts], the standard deviation of the difference between the
    flipped frame cropped at [half_win + i : -half_win + i] and [ref]. *)
Definition centre_curve (half_win : Z) (flipped ref : frame) (shifts : list Z) : list sd :=
  map (fun i => std (flatten (frame_sub
                 (cols (Some (half_win + i)) (Some (- half_win + i)) flipped) ref)))
      shifts.

(** ** load_scan.py *)

Module LoadScan.

Record LoadProjections : Type := Build {
  p0 : Z;
  cor_offset : Z;
  crop : option Z * option Z * option Z * option Z;
  num_images : option Z;
  angles : option (list Q);
  im_stack : stack;
  recon_data : option (list frame)
}.

(** Fields as [__init__] leaves them once the frames are loaded. *)
Definition init (frames : stack) : LoadProjections :=
  Build 0 0 (None, None, None, None) None None frames None.

Definition set_p0 v s :=
  Build v (cor_offset s) (crop s) (num_images s) (angles s) (im_stack s) (recon_data s).
Definition set_cor_offset v s :=
  Build (p0 s) v (crop s) (num_images s) (angles s) (im_stack s) (recon_data s).
Definition set_crop_field v s :=
  Build (p0 s) (cor_offset s) v (num_images s) (angles s) (im_stack s) (recon_data s).
Definition set_num_images v s :=
  Build (p0 s) (cor_offset s) (crop s) v (angles s) (im_stack s) (recon_data s).
Definition set_angles_field v s :=
  Build (p0 s) (cor_offset s) (crop s) (num_images s) v (im_stack s) (recon_data s).
Definition set_im_stack v s :=
  Build (p0 s) (cor_offset s) (crop s) (num_images s) (angles s) v (recon_data s).
Definition set_recon_data v s :=
  Build (p0 s) (cor_offset s) (crop s) (num_images s) (angles s) (im_stack s) v.

Local Open Scope method_scope.

Section Calibration.
Context {E : Externals}.

(** [set_angles(self, num_images, ang_range=360, p0=5)] *)
Definition set_angles (n ang_range p : Z) : M LoadProjections unit :=
  write (set_p0 p) ;;
  assert ((ang_range =? 180) || (ang_range =? 360)) ;;
  a <- lift (linspace (inject_Z ang_range) n) ;;
  write (set_angles_field (Some a)) ;;
  write (set_num_images (Some n)).

(** [auto_set_angles(self, est_nproj, p0=5)] *)
Definition auto_set_angles (est_nproj p : Z) : M LoadProjections unit :=
  let order := est_nproj / 2 in
  write (set_p0 p) ;;
  s <- read im_stack ;;
  (* np.ones refuses a negative length *)
  lift (if len s - p <? 0 then Raise ValueError else Return tt) ;;
  ref <- lift (get s p) ;;
  let diff := difference_curve s p ref in
  minimas <- lift (argrelmin diff order) ;;
  m0 <- lift (get minimas 0) ;;
  write (set_num_images (Some (Z.of_nat m0 + 1))) ;;
  a <- lift (linspace_int 360 (Z.of_nat m0 + 1)) ;;
  write (set_angles_field (Some a)).

(** [set_centre(self, cor)] *)
Definition set_centre (cor : Z) : M LoadProjections unit :=
  write (set_cor_offset cor).

(** [auto_centre(self, window=400, downsample_y=2)] *)
Definition auto_centre (window downsample_y : Z) : M LoadProjections unit :=
  let downsample := (downsample_y, 1) in
  let half_win := window / 2 in
  let win_range := range (- half_win) half_win in
  s <- read im_stack ;;
  p <- read p0 ;;
  f0 <- lift (get s p) ;;
  let ref_image := cols (Some half_win) (Some (- half_win)) f0 in
  let ref := downscale_local_mean ref_image downsample in
  n <- read num_images ;;
  n <- lift (not_none n) ;;
  im_180_image <- lift (get s (n / 2 + p)) ;;
  let im_180 := downscale_local_mean im_180_image downsample in
  let flipped := fliplr im_180 in
  (* the window is walked backwards, the curve is filled forwards *)
  let diff := centre_curve half_win flipped ref (rev win_range) in
  minima <- lift (argmin diff) ;;
  c <- lift (get win_range (Z.of_nat minima)) ;;
  write (set_cor_offset c).

(** [manual_set_angles(self, p0=5)] *)
Definition manual_set_angles (p : Z) : M LoadProjections unit :=
  write (set_p0 p) ;;
  s <- read im_stack ;;
  let answer := ask_operator s p in
  write (set_angles_field (fst answer)) ;;
  write (set_num_images (snd answer)).

(** [set_crop(self, width, top, bottom)]; the cropped view it builds is
    only plotted. *)
Definition set_crop (width top bottom : Z) : M LoadProjections unit :=
  let entry (i : Z) := if i =? 0 then None else Some i in
  write (set_crop_field (entry width, entry (- width), entry top, entry (- bottom))).
End Calibration.

(** *** Arrays and views

    Basic slicing of a numpy array gives a view that shares the array's
    memory.  [images] in [reconstruct] is either such a view of
    [self.im_stack], described by the rows, columns and frames it
    selects, or an array of its own. *)

Inductive ndarray : Type :=
| View (rs cs fs : list nat)
| Own (a : stack).

Definition pixel (s : stack) (k r c : nat) : Q :=
  nth c (nth r (nth k s []) []) 0%Q.

Definition gather (s : stack) (rs cs fs : list nat) : stack :=
  map (fun k => map (fun r => map (fun c => pixel s k r c) cs) rs) fs.

(** The entries seen through [v] when [self.im_stack] is [base]. *)
Definition contents (base : stack) (v : ndarray) : stack :=
  match v with
  | View rs cs fs => gather base rs cs fs
  | Own a => a
  end.

(** [v.shape] as (height, width, frames) *)
Definition shape (v : ndarray) : nat * nat * nat :=
  match v with
  | View rs cs fs => (length rs, length cs, length fs)
  | Own a => (length (hd [] a), length (hd [] (hd [] a)), length a)
  end.

(** [v[lo:hi]], [v[:, lo:hi]] and [v[:, :, lo:hi]] *)
Definition slice_rows (lo hi : option Z) (v : ndarray) : ndarray :=
  match v with
  | View rs cs fs => View (slice lo hi rs) cs fs
  | Own a => Own (map (slice lo hi) a)
  end.
Definition slice_cols (lo hi : option Z) (v : ndarray) : ndarray :=
  match v with
  | View rs cs fs => View rs (slice lo hi cs) fs
  | Own a => Own (map (cols lo hi) a)
  end.
Definition slice_frames (lo hi : option Z) (v : ndarray) : ndarray :=
  match v with
  | View rs cs fs => View rs cs (slice lo hi fs)
  | Own a => Own (slice lo hi a)
  end.

Fixpoint update_nth {A} (i : nat) (f : A -> A) (l : list A) : list A :=
  match l, i with
  | [], _ => []
  | x :: l', O => f x :: l'
  | x :: l', S i' => x :: update_nth i' f l'
  end.

(** Write the row [vals] into the columns [cs] of [row]. *)
Fixpoint put_row (cs : list nat) (vals : list Q) (row : list Q) : list Q :=
  match cs, vals with
  | c :: cs', v :: vals' => put_row cs' vals' (update_nth c (fun _ => v) row)
  | _, _ => row
  end.

(** Write the frame [new] into the rows [rs] and columns [cs] of [fr]. *)
Fixpoint put_frame (rs cs : list nat) (new : frame) (fr : frame) : frame :=
  match rs, new with
  | r :: rs', vals :: new' => put_frame rs' cs new' (update_nth r (put_row cs vals) fr)
  | _, _ => fr
  end.

(** [images[j, :, :]]: one row of every frame, as width x frames.
    [np.squeeze] drops an axis of length one; the external strategies are
    handed the matrix as it is. *)
Definition sinogram (a : stack) (j w : nat) : list (list Q) :=
  map (fun c => map (fun f => nth c (nth j f []) 0%Q) a) (seq 0 w).

Definition zeros (h w : nat) : frame := repeat (repeat 0%Q w) h.
Definition ones (h w : nat) : frame := repeat (repeat 1%Q w) h.

(** The selector [recon_alg]: 'sart', 'visualhulls', anything else. *)
Inductive algorithm : Type := Fbp | Sart | VisualHulls.

(** *** Circular crop *)

(** [int((recon_width**2 / 2)**0.5)]: the square root rounded down. *)
Definition root_of_half_square (recon_width : Z) : Z :=
  Z.sqrt (recon_width * recon_width / 2).

Definition circle_w (recon_width : Z) : Z :=
  let w := root_of_half_square recon_width in
  if (w - recon_width) mod 2 =? 0 then w else w - 1.

Definition circle_w0 (recon_width : Z) : Z :=
  Z.quot (recon_width - circle_w recon_width) 2.

Definition circle_wf (recon_width : Z) : Z :=
  circle_w0 recon_width + circle_w recon_width.

(** [recon_data[w0:wf, w0:wf]] *)
Definition crop_to_circle (recon_width : Z) (vol : list frame) : list frame :=
  let w0 := circle_w0 recon_width in
  let wf := circle_wf recon_width in
  map (fun sl => cols (Some w0) (Some wf) (slice (Some w0) (Some wf) sl)) vol.

(** *** Multi-rotation averaging *)

(** [np.reshape(sub, (h, w, n, rots)).mean(axis=3)]: the array is laid
    out in C order, so the last axis runs over neighbouring frames and
    frame [k] of the result is the mean of the [rots] frames from position
    [k * rots] on.  (With [rots = 0] numpy answers nan, here 0.) *)
Definition mean_of_groups (sub : stack) (h w n rots : nat) : stack :=
  map (fun k =>
         map (fun r =>
                map (fun c => mean (map (fun t => pixel sub (k * rots + t) r c) (seq 0 rots)))
                    (seq 0 w))
             (seq 0 h))
      (seq 0 n).

Section Reconstruction.
Context {E : Externals}.

(** [binarise_sino(self, orig_sino, threshold)] *)
Definition binarise_sino (orig_sino : list (list Q)) (threshold : Q) : list (list Q) :=
  median_filter (map (map (fun v => if Qltb threshold v then 1%Q else 0%Q)) orig_sino) 2.

Definition transpose (m : list (list Q)) : list (list Q) :=
  map (fun k => map (fun row => nth k row 0%Q) m) (seq 0 (length (hd [] m))).

(** Detector column of the cell in row [r], column [c]:
    [np.clip(_mapping_array(...).astype('int') + centre, 0, width - 1)] *)
Definition mapping_index (width centre : Z) (theta : Q) (r c : nat) : Z :=
  Z.min (Z.max (project theta (Z.of_nat c - centre) (Z.of_nat r - centre) + centre) 0)
        (width - 1).

(** One pass of the loop body: [full -= 1 - sino[i, :][mapping_array]] *)
Definition carve (width centre : Z) (theta : Q) (view : list Q) (full : frame) : frame :=
  map (fun rrow =>
         map (fun cv =>
                (snd cv - (1 - nth (Z.to_nat (mapping_index width centre theta (fst rrow) (fst cv)))
                                   view 0))%Q)
             (combine (seq 0 (length (snd rrow))) (snd rrow)))
      (combine (seq 0 (length full)) full).

(** The accumulator after the views [0 .. n-1]. *)
Fixpoint carve_views (angs : option (list Q)) (sino : list (list Q)) (width centre : Z)
         (views : list Z) (full : frame) : outcome frame :=
  match views with
  | [] => Return full
  | i :: rest =>
      obind (not_none angs) (fun a =>
      obind (get a i) (fun theta =>
      obind (get sino i) (fun view =>
      carve_views angs sino width centre rest (carve width centre theta view full))))
  end.

Definition amax (x : Q) (l : list Q) : Q :=
  fold_right (fun a b => if Qle_bool a b then b else a) x l.
Definition amin (x : Q) (l : list Q) : Q :=
  fold_right (fun a b => if Qle_bool b a then b else a) x l.

(** [full.max() - full.min()]; an empty array is refused. *)
Definition data_range (full : frame) : outcome Q :=
  match flatten full with
  | [] => Raise ValueError
  | x :: l => Return (amax x l - amin x l)%Q
  end.

(** [data_range // 4] on floats *)
Definition floor_quarter (r : Q) : Q := inject_Z (Qfloor (r / 4)).

(** [full += data_range // 4; full[full < 0.5] = 0] *)
Definition bias_and_threshold (full : frame) : outcome frame :=
  obind (data_range full) (fun r =>
  Return (map (map (fun v => let v' := (v + floor_quarter r)%Q in
                             if Qltb v' (1#2) then 0%Q else v')) full)).

(** The accumulator of [visualhulls_recon] when its loop ends. *)
Definition accumulator (n : option Z) (angs : option (list Q))
           (sino : list (list Q)) (threshold : Q) : outcome frame :=
  let sino1 := map (map neg_log) sino in
  let sino2 := binarise_sino (transpose sino1) threshold in
  let width := len sino in
  let centre := width / 2 in
  obind (not_none n) (fun n =>
  carve_views angs sino2 width centre (range 0 n)
              (ones (Z.to_nat width) (Z.to_nat width))).

(** [visualhulls_recon(self, sino, threshold)], reading [self.num_images]
    and [self.angles] *)
Definition visualhulls_recon (n : option Z) (angs : option (list Q))
           (sino : list (list Q)) (threshold : Q) : outcome frame :=
  obind (accumulator n angs sino threshold) bias_and_threshold.

(** [iradon_sart] once, then [sart_iters - 1] times from the last result. *)
Definition sart (sino : list (list Q)) (angs : option (list Q)) (sart_iters : Z)
  : outcome frame :=
  fold_left (fun acc _ => obind acc (fun im => iradon_sart sino angs (Some im)))
            (range 0 (sart_iters - 1))
            (iradon_sart sino angs None).

(** The images after the centre offset and the choice of frames. *)
Definition select_frames (average : bool) (s : LoadProjections) : outcome ndarray :=
  let base := im_stack s in
  let h := length (hd [] base) in
  let w := length (hd [] (hd [] base)) in
  let whole := View (seq 0 h) (seq 0 w) (seq 0 (length base)) in
  let images :=
    if 0 <=? cor_offset s then slice_cols (Some (cor_offset s)) None whole
    else slice_cols None (Some (cor_offset s)) whole in
  obind (not_none (num_images s)) (fun n =>
  if average then
    if n =? 0 then Raise ZeroDivisionError
    else
      let rots := (Z.of_nat (snd (shape images)) - p0 s) / n in
      let sub := contents base
                   (slice_frames (Some (p0 s)) (Some (rots * n + p0 s)) images) in
      (* reshape: the frames kept must fill num_images x rots; a
         negative count, which numpy infers or refuses, is refused *)
      if (0 <=? n) && (0 <=? rots) && (len sub =? n * rots) then
        Return (Own (mean_of_groups sub (fst (fst (shape images)))
                                    (snd (fst (shape images)))
                                    (Z.to_nat n) (Z.to_nat rots)))
      else Raise ValueError
  else
    Return (slice_frames (Some (p0 s)) (Some (n + p0 s)) images)).

(** The images handed to the slice loop. *)
Definition preprocess (downsample : Z * Z) (crop_flag average : bool)
           (s : LoadProjections) : outcome ndarray :=
  obind (select_frames average s) (fun images =>
  if crop_flag then
    let '(c_left, c_right, c_top, c_bottom) := crop s in
    let images := slice_cols c_left c_right (slice_rows c_top c_bottom images) in
    Return (Own (map (fun f => downscale_local_mean f downsample)
                     (contents (im_stack s) images)))
  else Return images).

(** [for i in range(images.shape[-1]):
       images[:, :, i] = medfilt(images[:, :, i], kernel_size=kernel)]
    A view writes through to [self.im_stack]. *)
Definition median_pass (kernel : Z) (images : ndarray) : M LoadProjections ndarray :=
  match images with
  | Own a =>
      a' <- lift (map_outcome (fun f => medfilt f kernel) a) ;;
      ret (Own a')
  | View rs cs fs =>
      for_each fs (fun k =>
        base <- read im_stack ;;
        new <- lift (medfilt (map (fun r => map (fun c => pixel base k r c) cs) rs) kernel) ;;
        write (fun s => set_im_stack (update_nth k (put_frame rs cs new) (im_stack s)) s)) ;;
      ret (View rs cs fs)
  end.

(** The strategy applied to one sinogram. *)
Definition reconstruct_slice (recon_alg : algorithm) (sart_iters : Z) (threshold : Q)
           (s : LoadProjections) (sino : list (list Q)) : outcome frame :=
  match recon_alg with
  | Sart => sart sino (angles s) sart_iters
  | VisualHulls =>
      (* a squeezed sinogram has no second axis for [sino.shape[1]] *)
      if (length sino =? 1)%nat || (length (hd [] sino) =? 1)%nat
      then Raise IndexError
      else visualhulls_recon (num_images s) (angles s) sino threshold
  | Fbp => iradon sino (angles s)
  end.

Definition store_slice (j : nat) (im : frame) (s : LoadProjections) : LoadProjections :=
  set_recon_data (option_map (update_nth j (fun _ => im)) (recon_data s)) s.

(** [reconstruct(self, downsample=(4, 4), crop=True, median_filter=False,
                 kernel=9, recon_alg='fbp', sart_iters=1, threshold=0.5,
                 crop_circle=False, average=False)] *)
Definition reconstruct (downsample : Z * Z) (crop_flag median_flag : bool) (kernel : Z)
           (recon_alg : algorithm) (sart_iters : Z) (threshold : Q)
           (crop_circle average : bool) : M LoadProjections unit :=
  s <- read (fun s => s) ;;
  images <- lift (preprocess downsample crop_flag average s) ;;
  let recon_height := fst (fst (shape images)) in
  let recon_width := snd (fst (shape images)) in
  write (set_recon_data (Some (repeat (zeros recon_width recon_width) recon_height))) ;;
  images <- (if median_flag then median_pass kernel images else ret images) ;;
  for_each (seq 0 recon_height) (fun j =>
    s <- read (fun s => s) ;;
    let sino_tmp := sinogram (contents (im_stack s) images) j recon_width in
    image_tmp <- lift (reconstruct_slice recon_alg sart_iters threshold s sino_tmp) ;;
    write (store_slice j image_tmp)) ;;
  (if crop_circle then
     write (fun s => set_recon_data
                       (option_map (crop_to_circle (Z.of_nat recon_width)) (recon_data s)) s)
   else ret tt).
End Reconstruction.

End LoadScan.

(** ** tomo_scan.py *)

Module TomoScan.

Record TomoScan : Type := Build {
  p0 : Z;
  cor_offset : Z;
  num_images : Z;
  angles : option (list Q);
  im_stack : stack
}.

(** Fields as [__init__] leaves them once the frames are acquired. *)
Definition init (frames : stack) : TomoScan := Build 0 0 0 None frames.

Definition set_p0 v s := Build v (cor_offset s) (num_images s) (angles s) (im_stack s).
Definition set_cor_offset v s := Build (p0 s) v (num_images s) (angles s) (im_stack s).
Definition set_num_images v s := Build (p0 s) (cor_offset s) v (angles s) (im_stack s).
Definition set_angles_field v s := Build (p0 s) (cor_offset s) (num_images s) v (im_stack s).
Definition set_im_stack v s := Build (p0 s) (cor_offset s) (num_images s) (angles s) v.

Local Open Scope method_scope.

Section Calibration.
Context {E : Externals}.

(** The loop of [auto_set_angles]: one entry per [i] in
    [range(p0, frames)]. *)
Definition scan_curve (s : stack) (p : Z) (ref : frame) : outcome (list sd) :=
  map_outcome
    (fun i => obind (get s i) (fun f =>
              Return (std (flatten (frame_sub (downscale_local_mean f (3, 3)) ref)))))
    (range p (len s)).

(** [auto_set_angles(self, order, p0=5)] *)
Definition auto_set_angles (order p : Z) : M TomoScan unit :=
  write (set_p0 p) ;;
  s <- read im_stack ;;
  f0 <- lift (get s p) ;;
  let ref := downscale_local_mean f0 (3, 3) in
  lift (if len s - p <? 0 then Raise ValueError else Return tt) ;;
  diff <- lift (scan_curve s p ref) ;;
  minimas <- lift (argrelmin diff order) ;;
  m0 <- lift (get minimas 0) ;;
  write (set_num_images (Z.of_nat m0 + 1)) ;;
  a <- lift (linspace_int 360 (Z.of_nat m0 + 1)) ;;
  write (set_angles_field (Some a)).

(** [auto_centre(self, window=400)] *)
Definition auto_centre (window : Z) : M TomoScan unit :=
  let half_win := window / 2 in
  let win_range := range (- half_win) half_win in
  s <- read im_stack ;;
  p <- read p0 ;;
  f0 <- lift (get s p) ;;
  let ref := cols (Some half_win) (Some (- half_win)) f0 in
  n <- read num_images ;;
  im_180 <- lift (get s (Z.quot n 2 + p)) ;;
  let flipped := fliplr im_180 in
  let diff := centre_curve half_win flipped ref win_range in
  minima <- lift (argmin diff) ;;
  c <- lift (get win_range (Z.of_nat minima)) ;;
  write (set_cor_offset c).

(** [manual_set_angles(self, interact=True, p0=5, num_images=None,
                       ang_range=None)]; [None] for [ang_range] fails the
    assertion like any value other than 180 and 360. *)
Definition manual_set_angles (interact : bool) (p : Z) (n : option Z)
           (ang_range : option Z) : M TomoScan unit :=
  write (set_p0 p) ;;
  if interact then
    s <- read im_stack ;;
    match saved_slider s p with
    | Some val =>
        (* store_data *)
        write (set_num_images (val - p + 1)) ;;
        a <- lift (linspace 360 (val - p + 1)) ;;
        write (set_angles_field (Some a))
    | None => ret tt
    end
  else
    assert (match ang_range with
            | Some r => (r =? 180) || (r =? 360)
            | None => false
            end) ;;
    n <- lift (not_none n) ;;
    a <- lift (linspace (inject_Z (match ang_range with Some r => r | None => 0 end)) n) ;;
    write (set_angles_field (Some a)) ;;
    write (fun s => set_im_stack (slice None (Some n) (im_stack s)) s).

(** [reconstruct(self, downsample=(4, 4, 1), pre_filter=True, kernel=9)].
    [height] is [self.height], the number of rows [__init__] found in the
    acquired frames, and [downscale] is [downscale_local_mean] on the
    three-dimensional array.  [self.recon_data] is [None] from
    [__init__] on and no method assigns it, so storing a slice raises.
    (An array without frames is given no rows here.) *)
Definition reconstruct (height : Z) (downscale : stack -> Z * Z * Z -> stack)
           (downsample : Z * Z * Z) (pre_filter : bool) (kernel : Z) : M TomoScan unit :=
  s <- read (fun s => s) ;;
  let frames := slice (Some (p0 s)) (Some (num_images s + p0 s)) (im_stack s) in
  let images :=
    if cor_offset s <=? 0 then map (cols (Some (- cor_offset s)) None) frames
    else map (cols None (Some (- cor_offset s))) frames in
  let images := downscale images downsample in
  images <- (if pre_filter then lift (map_outcome (fun f => medfilt f kernel) images)
             else ret images) ;;
  for_each (range 0 height) (fun j =>
    (* images[j, :, :] *)
    lift (if j <? len (hd [] images) then Return tt else Raise IndexError) ;;
    let sinotmp := LoadScan.sinogram images (Z.to_nat j)
                                     (length (hd [] (hd [] images))) in
    imagetmp <- lift (iradon sinotmp (angles s)) ;;
    (* self.recon_data[:, :, j] = imagetmp *)
    lift (Raise TypeError)).
End Calibration.

End TomoScan.

(** ** Sample collaborators and inputs used by the closed examples below *)

Module Samples.

(** Stand-ins for the numeric collaborators, chosen to act on the sample
    inputs as the real primitives do: a block mean with factor 1 returns
    its input, and frames of zeros stay zeros under any factor; the 2x2
    median of the one-row mask (0, 1) is (0, 1) again; the projection at
    0 degrees is the column offset itself; [1 - t] lies on the same side
    of the threshold 0.5 as [-log(t + 1e-8)] for [t] in {0.1, 1}. *)
Definition stand_ins : Externals := {|
  downscale_local_mean := fun f _ => f;
  medfilt := fun f _ => Return f;
  median_filter := fun a _ => a;
  iradon := fun sino _ => Return (LoadScan.zeros (length sino) (length sino));
  iradon_sart := fun sino _ _ => Return (LoadScan.zeros (length sino) (length sino));
  neg_log := fun t => (1 - t)%Q;
  project := fun _ x _ => x;
  ask_operator := fun _ _ => (None, None);
  saved_slider := fun _ _ => None
|}.

(** The same, with a median filter that blanks its input: it makes
    writes into a frame visible. *)
Definition blanking : Externals := {|
  downscale_local_mean := fun f _ => f;
  medfilt := fun f _ => Return (map (map (fun _ => 0%Q)) f);
  median_filter := fun a _ => a;
  iradon := fun sino _ => Return (LoadScan.zeros (length sino) (length sino));
  iradon_sart := fun sino _ _ => Return (LoadScan.zeros (length sino) (length sino));
  neg_log := fun t => (1 - t)%Q;
  project := fun _ x _ => x;
  ask_operator := fun _ _ => (None, None);
  saved_slider := fun _ _ => None
|}.

(** A frame of one row and two pixels. *)
Definition two_px (a b : Q) : frame := [[a; b]].

(** Seven frames that repeat with period 3. *)
Definition period3 : stack :=
  [two_px 0 0; two_px 1 (-1); two_px 1 (-1); two_px 0 0;
   two_px 1 (-1); two_px 1 (-1); two_px 0 0]%Q.

(** Three equal frames: the difference curve is flat. *)
Definition still : stack := [two_px 0 0; two_px 0 0; two_px 0 0]%Q.

(** Two frames of one row and four pixels; the second, flipped, matches
    the first on the two middle columns. *)
Definition mirrored : stack := [[[9; 1; 2; 9]]; [[0; 2; 1; 5]]]%Q.

(** The two frames loaded, calibrated to two images per rotation. *)
Definition mirrored_scan : LoadScan.LoadProjections :=
  LoadScan.set_num_images (Some 2) (LoadScan.init mirrored).
Definition mirrored_tomo : TomoScan.TomoScan :=
  TomoScan.set_num_images 2 (TomoScan.init mirrored).

(** Four frames of a single pixel. *)
Definition ramp : stack := [[[0]]; [[1]]; [[2]]; [[3]]]%Q.

(** The four frames loaded, calibrated to two images per rotation. *)
Definition ramp_scan : LoadScan.LoadProjections :=
  LoadScan.set_num_images (Some 2) (LoadScan.init ramp).

(** A sinogram of two detector columns and one view: clear, absorbing. *)
Definition half_shadow : list (list Q) := [[1]; [1 # 10]]%Q.

(** One slice of side 3. *)
Definition slice3 : frame := [[1; 2; 3]; [4; 5; 6]; [7; 8; 9]]%Q.

End Samples.

(** ** Statements used by the theorems *)

(** Frames [p0 + N*k] are identical for all [k >= 0]. *)
Definition periodic (s : stack) (p N : Z) : Prop :=
  forall k, 0 <= k -> p + N * k < len s -> get s (p + N * k) = get s p.

(** A standard deviation above zero. *)
Definition positive (d : sd) : Prop := (0 < radicand d)%Q.

(** [a <= b] and [a < b] on standard deviations *)
Definition sd_le (a b : sd) : Prop := (radicand a <= radicand b)%Q.
Definition sd_lt (a b : sd) : Prop := (radicand a < radicand b)%Q.

(** Entries ascend, strictly or weakly. *)
Definition ascending (l : list Q) : Prop :=
  forall i j, (i < j < length l)%nat -> (nth i l 0 < nth j l 0)%Q.
Definition nondecreasing (l : list Q) : Prop :=
  forall i j, (i < j < length l)%nat -> (nth i l 0 <= nth j l 0)%Q.

(** The angle sequence [a] has [n] entries, starts at 0, ends at [stop]
    and never descends. *)
Definition calibrated (a : list Q) (n : Z) (stop : Q) : Prop :=
  len a = n /\
  (exists x, get a 0 = Return x /\ (x == 0)%Q) /\
  (exists y, get a (-1) = Return y /\ (y == stop)%Q) /\
  nondecreasing a.

(** The method [m] leaves the field [field] as it found it, whatever its
    outcome: from the state [s], and from every state. *)
Definition keeps_at {S F A} (field : S -> F) (m : M S A) (s : S) : Prop :=
  field (state_after (m s)) = field s.
Definition keeps {S F A} (field : S -> F) (m : M S A) : Prop :=
  forall s, keeps_at field m s.

(** The standard deviation recorded for the shift [i] of the flipped
    frame against the reference. *)
Definition shift_std (half_win : Z) (flipped ref : frame) (i : Z) : sd :=
  std (flatten (frame_sub (cols (Some (half_win + i)) (Some (- half_win + i)) flipped) ref)).

(** As the specification words the last step of the silhouette carving:
    one quarter of the range, exactly, is added before the threshold. *)
Definition bias_and_threshold_exact_quarter (full : frame) : outcome frame :=
  obind (LoadScan.data_range full) (fun r =>
  Return (map (map (fun v => let v' := (v + r / 4)%Q in
                             if Qltb v' (1#2) then 0%Q else v')) full)).

(** As the specification words the averaging: frame [k] is the mean of the
    frames [p0 + k], [p0 + n + k], [p0 + 2n + k], ... of the complete
    rotations. *)
Definition mean_across_rotations (sub : stack) (h w n rots : nat) : stack :=
  map (fun k =>
         map (fun r =>
                map (fun c => mean (map (fun t => LoadScan.pixel sub (t * n + k) r c)
                                        (seq 0 rots)))
                    (seq 0 w))
             (seq 0 h))
      (seq 0 n).

(** [v] does not exceed the real square root of [rw * rw / 2]. *)
Definition within_root (v rw : Z) : Prop :=
  (IZR v <= sqrt (IZR (rw * rw) / 2))%R.

(** A slice of [n] rows of [n] entries. *)
Definition square (n : nat) (sl : frame) : Prop :=
  length sl = n /\ Forall (fun row => length row = n) sl.

(** A frame of [h] rows of [w] entries. *)
Definition rectangle (h w : nat) (f : frame) : Prop :=
  length f = h /\ Forall (fun row => length row = w) f.

(** The frame [f] after [medfilt], or [f] itself where [medfilt] raises. *)
Definition filtered {E : Externals} (kernel : Z) (f : frame) : frame :=
  match medfilt f kernel with
  | Return g => g
  | Raise _ => f
  end.

(** The same collaborators with another block-mean primitive. *)
Definition with_downscale (E : Externals) (f : frame -> Z * Z -> frame) : Externals := {|
  downscale_local_mean := f;
  medfilt := @medfilt E;
  median_filter := @median_filter E;
  iradon := @iradon E;
  iradon_sart := @iradon_sart E;
  neg_log := @neg_log E;
  project := @project E;
  ask_operator := @ask_operator E;
  saved_slider := @saved_slider E
|}.

(** * Facts about the primitives *)

Section NumericFacts.
Local Open Scope Q_scope.

Lemma Qltb_lt (a b : Q) : Qltb a b = true <-> a < b.
Proof.
  unfold Qltb. rewrite negb_true_iff. split.
  - intros H. apply Qnot_le_lt. intros Hle.
    apply Qle_bool_iff in Hle. congruence.
  - intros H. destruct (Qle_bool b a) eqn:Hb; [|reflexivity].
    apply Qle_bool_iff in Hb. exfalso. exact (Qlt_not_le _ _ H Hb).
Qed.

Lemma Qltb_ge (a b : Q) : Qltb a b = false <-> b <= a.
Proof.
  unfold Qltb. rewrite negb_false_iff. apply Qle_bool_iff.
Qed.

Lemma sd_ltb_lt (a b : sd) : sd_ltb a b = true <-> sd_lt a b.
Proof. apply Qltb_lt. Qed.

Lemma sd_ltb_ge (a b : sd) : sd_ltb a b = false <-> sd_le b a.
Proof. apply Qltb_ge. Qed.

Lemma sd_ltb_irrefl (a : sd) : sd_ltb a a = false.
Proof. apply sd_ltb_ge. unfold sd_le. apply Qle_refl. Qed.

Lemma sd_ltb_zero_positive (a b : sd) :
  sd_zero a -> positive b -> sd_ltb a b = true.
Proof.
  unfold sd_zero, positive. intros Ha Hb.
  apply Qltb_lt. rewrite Ha. exact Hb.
Qed.

Lemma sd_ltb_zero_right (a b : sd) :
  (0 <= radicand a) -> sd_zero b -> sd_ltb a b = false.
Proof.
  unfold sd_zero. intros Ha Hb. apply Qltb_ge. rewrite Hb. exact Ha.
Qed.

Lemma sum_zero (l : list Q) : Forall (fun x => x == 0) l -> sum l == 0.
Proof.
  induction 1 as [|x l Hx _ IH]; simpl.
  - reflexivity.
  - rewrite Hx, IH. reflexivity.
Qed.

Lemma mean_zero (l : list Q) : Forall (fun x => x == 0) l -> mean l == 0.
Proof.
  intros H. unfold mean. rewrite (sum_zero H).
  unfold Qdiv. apply Qmult_0_l.
Qed.

Lemma variance_zero (l : list Q) : Forall (fun x => x == 0) l -> variance l == 0.
Proof.
  intros H. unfold variance. apply mean_zero.
  apply Forall_forall. intros y Hy.
  apply in_map_iff in Hy. destruct Hy as [x [Hx Hin]]. subst y.
  rewrite (mean_zero H).
  rewrite Forall_forall in H. rewrite (H x Hin). reflexivity.
Qed.

Lemma square_nonneg (x : Q) : 0 <= x * x.
Proof. unfold Qle, Qmult. simpl. nia. Qed.

Lemma sum_nonneg (l : list Q) : Forall (fun x => 0 <= x) l -> 0 <= sum l.
Proof.
  induction 1 as [|x l Hx _ IH]; simpl.
  - apply Qle_refl.
  - replace 0 with (0 + 0) by reflexivity. apply Qplus_le_compat; assumption.
Qed.

(** A variance is never negative, so [Sqrt] is applied to a
    non-negative rational. *)
Lemma variance_nonneg (l : list Q) : 0 <= variance l.
Proof.
  unfold variance, mean at 1. unfold Qdiv.
  apply Qmult_le_0_compat.
  - apply sum_nonneg. apply Forall_forall. intros y Hy.
    apply in_map_iff in Hy. destruct Hy as [x [Hx _]]. subst y.
    apply square_nonneg.
  - apply Qinv_le_0_compat. unfold len.
    change 0 with (inject_Z 0). rewrite <- Zle_Qle. lia.
Qed.

Lemma sub_self_zero (row : list Q) :
  Forall (fun x => x == 0) (map2 Qminus row row).
Proof.
  induction row as [|x row IH]; simpl; constructor; [|exact IH].
  unfold Qminus. apply Qplus_opp_r.
Qed.

Lemma frame_sub_self_zero (f : frame) :
  Forall (fun x => x == 0) (flatten (frame_sub f f)).
Proof.
  unfold flatten, frame_sub.
  induction f as [|row f IH]; simpl.
  - constructor.
  - apply Forall_app. split; [apply sub_self_zero | exact IH].
Qed.

(** The difference of a frame to itself has standard deviation 0. *)
Lemma std_self_zero (f : frame) : sd_zero (std (flatten (frame_sub f f))).
Proof.
  unfold sd_zero, std. simpl. apply variance_zero. apply frame_sub_self_zero.
Qed.

Lemma std_nonneg (l : list Q) : 0 <= radicand (std l).
Proof. simpl. apply variance_nonneg. Qed.
End NumericFacts.

(** The order on [Sqrt] values is the order of the real square roots. *)
Lemma Sqrt_order_real (a b : Q) :
  (0 <= a)%Q -> (0 <= b)%Q ->
  (sd_ltb (Sqrt a) (Sqrt b) = true <-> (sqrt (Q2R a) < sqrt (Q2R b))%R).
Proof.
  intros Ha Hb. rewrite sd_ltb_lt. unfold sd_lt. simpl.
  assert (Ha' : (0 <= Q2R a)%R) by (replace 0%R with (Q2R 0) by lra; apply Qle_Rle; exact Ha).
  assert (Hb' : (0 <= Q2R b)%R) by (replace 0%R with (Q2R 0) by lra; apply Qle_Rle; exact Hb).
  split.
  - intros H. apply sqrt_lt_1; try assumption. apply Qlt_Rlt. exact H.
  - intros H. apply Rlt_Qlt. apply sqrt_lt_0; assumption.
Qed.

Section SequenceFacts.

Lemma In_range (k a b : Z) : In k (range a b) <-> a <= k < b.
Proof.
  unfold range. rewrite in_map_iff. split.
  - intros [i [Hi Hin]]. apply in_seq in Hin. lia.
  - intros H. exists (Z.to_nat (k - a)). split; [lia|].
    apply in_seq. lia.
Qed.

Lemma range_length (a b : Z) : length (range a b) = Z.to_nat (b - a).
Proof. unfold range. rewrite length_map, length_seq. reflexivity. Qed.

Lemma nth_range (a b : Z) (i : nat) (d : Z) :
  (i < Z.to_nat (b - a))%nat -> nth i (range a b) d = a + Z.of_nat i.
Proof.
  intros H. unfold range.
  rewrite (nth_indep _ d (a + Z.of_nat 0)) by (rewrite length_map, length_seq; exact H).
  rewrite (map_nth (fun k => a + Z.of_nat k)). rewrite seq_nth by exact H.
  reflexivity.
Qed.

Lemma get_nonneg {A} (l : list A) (i : Z) :
  0 <= i ->
  get l i = match nth_error l (Z.to_nat i) with
            | Some x => Return x
            | None => Raise IndexError
            end.
Proof.
  intros H. unfold get.
  destruct (i <? 0) eqn:Hi; [apply Z.ltb_lt in Hi; lia|].
  rewrite Hi. reflexivity.
Qed.

Lemma get_Return_nth {A} (l : list A) (i : Z) (x d : A) :
  0 <= i -> get l i = Return x ->
  (Z.to_nat i < length l)%nat /\ nth (Z.to_nat i) l d = x.
Proof.
  intros H Hg. rewrite get_nonneg in Hg by exact H.
  destruct (nth_error l (Z.to_nat i)) eqn:Hn; [|discriminate].
  injection Hg as ->. split.
  - apply nth_error_Some. congruence.
  - apply nth_error_nth. exact Hn.
Qed.

Lemma get_in_bounds {A} (l : list A) (i : Z) (d : A) :
  0 <= i < len l -> get l i = Return (nth (Z.to_nat i) l d).
Proof.
  unfold len. intros H. rewrite get_nonneg by lia.
  rewrite (nth_error_nth' l d) by lia. reflexivity.
Qed.

Lemma slice_from {A} (l : list A) (p : Z) :
  0 <= p <= len l -> slice (Some p) None l = skipn (Z.to_nat p) l.
Proof.
  intros H. unfold slice, bound.
  destruct (p <? 0) eqn:Hp; [apply Z.ltb_lt in Hp; lia|].
  rewrite Z.min_l by lia.
  apply firstn_all2. rewrite length_skipn. unfold len in *. lia.
Qed.

Lemma slice_upto {A} (l : list A) (n : Z) :
  0 <= n -> slice None (Some n) l = firstn (Z.to_nat n) l.
Proof.
  intros H. unfold slice, bound.
  destruct (n <? 0) eqn:Hn; [apply Z.ltb_lt in Hn; lia|].
  simpl skipn. rewrite Z.sub_0_r. unfold len.
  destruct (Z.le_ge_cases n (Z.of_nat (length l))) as [Hle|Hge].
  - rewrite Z.min_l by exact Hle. reflexivity.
  - rewrite Z.min_r by lia. rewrite Nat2Z.id.
    rewrite !firstn_all2 by lia. reflexivity.
Qed.

Lemma filter_seq_none (f : nat -> bool) (n a : nat) :
  (forall j, (a <= j < a + n)%nat -> f j = false) -> filter f (seq a n) = [].
Proof.
  revert a. induction n as [|n IH]; intros a H; simpl.
  - reflexivity.
  - rewrite (H a) by lia. apply IH. intros j Hj. apply H. lia.
Qed.

Lemma filter_seq_first (f : nat -> bool) (n a m : nat) :
  (a <= m < a + n)%nat -> f m = true ->
  (forall j, (a <= j < m)%nat -> f j = false) ->
  exists rest, filter f (seq a n) = m :: rest.
Proof.
  revert a. induction n as [|n IH]; intros a Hm Hf Hlow; [lia|].
  simpl. destruct (Nat.eq_dec a m) as [->|Hne].
  - rewrite Hf. eexists. reflexivity.
  - rewrite (Hlow a) by lia. apply IH; [lia|exact Hf|].
    intros j Hj. apply Hlow. lia.
Qed.

Lemma filter_seq_head (f : nat -> bool) (n a m : nat) (rest : list nat) :
  filter f (seq a n) = m :: rest ->
  (a <= m < a + n)%nat /\ f m = true /\ (forall j, (a <= j < m)%nat -> f j = false).
Proof.
  revert a. induction n as [|n IH]; intros a H; simpl in H; [discriminate|].
  destruct (f a) eqn:Hfa.
  - injection H as <- _. repeat split; [lia|lia|exact Hfa|intros; lia].
  - apply IH in H. destruct H as [Hb [Hf Hlow]].
    repeat split; [lia|lia|exact Hf|].
    intros j Hj. destruct (Nat.eq_dec j a) as [->|Hne]; [exact Hfa|].
    apply Hlow. lia.
Qed.
End SequenceFacts.

(** ** Relative minima *)

Section RelativeMinima.

Lemma take_clip_inside (d : list sd) (i : Z) :
  0 <= i < len d -> take_clip d i = nth (Z.to_nat i) d (Sqrt 0).
Proof.
  intros H. unfold take_clip. rewrite Z.min_l by lia. rewrite Z.max_r by lia.
  reflexivity.
Qed.

Lemma take_clip_below (d : list sd) (i : Z) : i <= 0 -> take_clip d i = take_clip d 0.
Proof.
  intros H. unfold take_clip. f_equal. f_equal. lia.
Qed.

Lemma take_clip_above (d : list sd) (i : Z) :
  len d - 1 <= i -> take_clip d i = take_clip d (len d - 1).
Proof.
  intros H. unfold take_clip. f_equal. f_equal. lia.
Qed.

Lemma qualifies_true (order : Z) (d : list sd) (i : nat) :
  qualifies order d i = true <->
  forall k, 1 <= k <= order ->
            sd_lt (take_clip d (Z.of_nat i)) (take_clip d (Z.of_nat i + k)) /\
            sd_lt (take_clip d (Z.of_nat i)) (take_clip d (Z.of_nat i - k)).
Proof.
  unfold qualifies. rewrite forallb_forall. split.
  - intros H k Hk. specialize (H k). rewrite In_range in H.
    specialize (H ltac:(lia)). apply andb_true_iff in H.
    rewrite !sd_ltb_lt in H. exact H.
  - intros H k Hk. apply In_range in Hk. apply andb_true_iff.
    rewrite !sd_ltb_lt. apply H. lia.
Qed.

Lemma qualifies_false_by (order : Z) (d : list sd) (i : nat) (k : Z) :
  1 <= k <= order ->
  sd_le (take_clip d (Z.of_nat i + k)) (take_clip d (Z.of_nat i)) \/
  sd_le (take_clip d (Z.of_nat i - k)) (take_clip d (Z.of_nat i)) ->
  qualifies order d i = false.
Proof.
  intros Hk H. destruct (qualifies order d i) eqn:Hq; [|reflexivity].
  rewrite qualifies_true in Hq. destruct (Hq k Hk) as [H1 H2].
  unfold sd_lt, sd_le in *.
  destruct H as [H|H]; exfalso.
  - exact (Qlt_not_le _ _ H1 H).
  - exact (Qlt_not_le _ _ H2 H).
Qed.

(** The first entry of a curve is never a relative minimum: its left
    neighbour is clipped onto itself. *)
Lemma qualifies_first (order : Z) (d : list sd) :
  1 <= order -> qualifies order d 0 = false.
Proof.
  intros H. apply (@qualifies_false_by order d 0%nat 1); [lia|].
  right. simpl Z.of_nat. rewrite (@take_clip_below d (0 - 1)) by lia.
  unfold sd_le. apply Qle_refl.
Qed.

(** Nor is the last one. *)
Lemma qualifies_last (order : Z) (d : list sd) (i : nat) :
  1 <= order -> Z.of_nat i = len d - 1 -> qualifies order d i = false.
Proof.
  intros H Hi. apply (@qualifies_false_by order d i 1); [lia|].
  left. rewrite (@take_clip_above d (Z.of_nat i + 1)) by lia.
  rewrite Hi. unfold sd_le. apply Qle_refl.
Qed.

Lemma argrelmin_first (d : list sd) (order : Z) (m : nat) (rest : list nat) :
  argrelmin d order = Return (m :: rest) ->
  1 <= order /\ (1 <= m < length d)%nat /\ qualifies order d m = true /\
  (forall j, (j < m)%nat -> qualifies order d j = false).
Proof.
  unfold argrelmin. destruct (order <? 1) eqn:Ho; [discriminate|].
  apply Z.ltb_ge in Ho. intros H. injection H as H.
  apply filter_seq_head in H. destruct H as [Hb [Hq Hlow]].
  assert (m <> 0%nat).
  { intros ->. rewrite qualifies_first in Hq by exact Ho. discriminate. }
  repeat split; try lia; try assumption.
  intros j Hj. apply Hlow. lia.
Qed.
End RelativeMinima.

(** ** Evenly spaced samples *)

Section Linspace.
Local Open Scope Q_scope.

Lemma linspace_Return (stop : Q) (num : Z) :
  (0 <= num)%Z ->
  linspace stop num = Return (map (linspace_entry stop num) (seq 0 (Z.to_nat num))).
Proof.
  intros H. unfold linspace.
  destruct (num <? 0)%Z eqn:Hn; [apply Z.ltb_lt in Hn; lia|]. reflexivity.
Qed.

Lemma linspace_Raise (stop : Q) (num : Z) :
  (num < 0)%Z -> linspace stop num = Raise ValueError.
Proof.
  intros H. unfold linspace. apply Z.ltb_lt in H. rewrite H. reflexivity.
Qed.

Lemma linspace_length (stop : Q) (num : Z) (l : list Q) :
  linspace stop num = Return l -> len l = num.
Proof.
  unfold linspace. destruct (num <? 0)%Z eqn:Hn; [discriminate|].
  apply Z.ltb_ge in Hn. intros H. injection H as <-.
  unfold len. rewrite length_map, length_seq. lia.
Qed.

Lemma linspace_nth_exact (stop : Q) (num : Z) (l : list Q) (k : nat) :
  linspace stop num = Return l -> (k < length l)%nat ->
  nth k l 0 = linspace_entry stop num k.
Proof.
  intros H Hk. assert (Hlen := linspace_length _ _ H). unfold len in Hlen.
  rewrite linspace_Return in H by lia. injection H as <-.
  rewrite length_map, length_seq in Hk.
  rewrite (nth_indep _ 0 (linspace_entry stop num 0))
    by (rewrite length_map, length_seq; exact Hk).
  rewrite (map_nth (linspace_entry stop num)). rewrite seq_nth by exact Hk.
  reflexivity.
Qed.

(** With two samples or more, sample [k] is [k] steps of
    [stop / (num - 1)], the last one included. *)
Lemma linspace_entry_step (stop : Q) (num : Z) (k : nat) :
  (2 <= num)%Z ->
  linspace_entry stop num k == inject_Z (Z.of_nat k) * (stop / inject_Z (num - 1)).
Proof.
  intros H. unfold linspace_entry.
  destruct ((1 <? num)%Z && (Z.of_nat k =? num - 1)%Z) eqn:Hc; [|reflexivity].
  apply andb_true_iff in Hc. destruct Hc as [_ Hk]. apply Z.eqb_eq in Hk.
  rewrite Hk. rewrite Qmult_div_r; [reflexivity|].
  intros Hz. unfold Qeq in Hz. simpl in Hz. lia.
Qed.

Lemma step_positive (stop : Q) (num : Z) :
  0 < stop -> (2 <= num)%Z -> 0 < stop / inject_Z (num - 1).
Proof.
  intros Hs Hn. unfold Qdiv.
  apply Qmult_lt_0_compat; [exact Hs|].
  apply Qinv_lt_0_compat. change 0 with (inject_Z 0). rewrite <- Zlt_Qlt. lia.
Qed.

Lemma linspace_entry_lt (stop : Q) (num : Z) (i j : nat) :
  0 < stop -> (2 <= num)%Z -> (i < j)%nat ->
  linspace_entry stop num i < linspace_entry stop num j.
Proof.
  intros Hs Hn Hij. rewrite !linspace_entry_step by exact Hn.
  apply Qmult_lt_r; [apply step_positive; assumption|].
  rewrite <- Zlt_Qlt. lia.
Qed.

Lemma linspace_entry_first (stop : Q) (num : Z) :
  (2 <= num)%Z -> linspace_entry stop num 0 == 0.
Proof.
  intros H. rewrite linspace_entry_step by exact H. apply Qmult_0_l.
Qed.

Lemma linspace_entry_last (stop : Q) (num : Z) :
  (2 <= num)%Z -> linspace_entry stop num (Z.to_nat (num - 1)) = stop.
Proof.
  intros H. unfold linspace_entry.
  destruct (1 <? num)%Z eqn:H1; [|apply Z.ltb_ge in H1; lia].
  destruct (Z.of_nat (Z.to_nat (num - 1)) =? num - 1)%Z eqn:H2;
    [reflexivity|apply Z.eqb_neq in H2; lia].
Qed.

(** A single sample is the start value 0. *)
Lemma linspace_one (stop : Q) : exists x, linspace stop 1 = Return [x] /\ x == 0.
Proof.
  eexists. split; [reflexivity|]. apply Qmult_0_l.
Qed.

Lemma linspace_int_Return (stop : Q) (num : Z) :
  (0 <= num)%Z ->
  linspace_int stop num =
  Return (map (fun k => inject_Z (Qfloor (linspace_entry stop num k)))
              (seq 0 (Z.to_nat num))).
Proof.
  intros H. unfold linspace_int. rewrite linspace_Return by exact H.
  simpl. rewrite map_map. reflexivity.
Qed.
End Linspace.

(** ** The run of automatic angle calibration *)

Section AutoAngles.
Import LoadScan.

Lemma auto_set_angles_run (st : LoadProjections) (est p : Z) (ref : frame) :
  get (im_stack st) p = Return ref ->
  0 <= len (im_stack st) - p ->
  1 <= est / 2 ->
  auto_set_angles est p st =
  match filter (qualifies (est / 2) (difference_curve (im_stack st) p ref))
               (seq 0 (length (difference_curve (im_stack st) p ref))) with
  | [] => (set_p0 p st, Raise IndexError)
  | m0 :: _ =>
      (set_angles_field
         (Some (map (fun k => inject_Z (Qfloor (linspace_entry 360 (Z.of_nat m0 + 1) k)))
                    (seq 0 (Z.to_nat (Z.of_nat m0 + 1)))))
         (set_num_images (Some (Z.of_nat m0 + 1)) (set_p0 p st)),
       Return tt)
  end.
Proof.
  intros Hg Hlen Ho.
  unfold auto_set_angles, bind, write, read, lift. simpl.
  destruct (len (im_stack st) - p <? 0) eqn:Hneg; [apply Z.ltb_lt in Hneg; lia|].
  rewrite Hg. unfold argrelmin.
  destruct (est / 2 <? 1) eqn:Hlt; [apply Z.ltb_lt in Hlt; lia|].
  destruct (filter _ _) as [|m0 rest] eqn:Hf.
  - reflexivity.
  - unfold get at 1. simpl.
    rewrite linspace_int_Return by lia. reflexivity.
Qed.

Lemma auto_set_angles_bad_order (st : LoadProjections) (est p : Z) (ref : frame) :
  get (im_stack st) p = Return ref ->
  0 <= len (im_stack st) - p ->
  est / 2 < 1 ->
  auto_set_angles est p st = (set_p0 p st, Raise ValueError).
Proof.
  intros Hg Hlen Ho.
  unfold auto_set_angles, bind, write, read, lift. simpl.
  destruct (len (im_stack st) - p <? 0) eqn:Hneg; [apply Z.ltb_lt in Hneg; lia|].
  rewrite Hg. unfold argrelmin.
  destruct (est / 2 <? 1) eqn:Hlt; [reflexivity|apply Z.ltb_ge in Hlt; lia].
Qed.

Lemma difference_curve_length (s : stack) (p : Z) (ref : frame) :
  0 <= p <= len s -> len (difference_curve s p ref) = len s - p.
Proof.
  intros H. unfold difference_curve, len in *.
  rewrite length_map, slice_from by (unfold len; lia).
  rewrite length_skipn. lia.
Qed.

Lemma difference_curve_nth (s : stack) (p : Z) (ref f : frame) (j : nat) :
  0 <= p -> get s (p + Z.of_nat j) = Return f ->
  nth j (difference_curve s p ref) (Sqrt 0) =
  std (flatten (frame_sub f ref)).
Proof.
  intros Hp Hg.
  apply (get_Return_nth _ []) in Hg; [|lia]. destruct Hg as [Hlt Hn].
  unfold difference_curve. rewrite slice_from by (unfold len; lia).
  assert (Hj : (j < length (skipn (Z.to_nat p) s))%nat) by (rewrite length_skipn; lia).
  rewrite (nth_indep _ (Sqrt 0) (std (flatten (frame_sub [] ref))))
    by (rewrite length_map; exact Hj).
  rewrite (map_nth (fun f0 => std (flatten (frame_sub f0 ref)))).
  rewrite nth_skipn. replace (Z.to_nat p + j)%nat with (Z.to_nat (p + Z.of_nat j)) by lia.
  rewrite Hn. reflexivity.
Qed.
End AutoAngles.

Lemma get_Return_room {A} (l : list A) (i : Z) (x : A) :
  get l i = Return x -> 0 <= len l - i.
Proof.
  unfold get, len. destruct (i <? 0) eqn:Hi.
  - apply Z.ltb_lt in Hi. lia.
  - rewrite Hi. apply Z.ltb_ge in Hi.
    destruct (nth_error l (Z.to_nat i)) eqn:Hn; [|discriminate].
    intros _. assert (Z.to_nat i < length l)%nat by (apply nth_error_Some; congruence).
    lia.
Qed.

(** * Automatic angle calibration *)

(** C1 (as amended).  For a stack whose frame [p0 + N] repeats frame [p0]
    (period [N]), with at least one frame after it, a window half-width
    [est_nproj // 2] between 1 and [N - 1], a difference curve that is
    above zero at the other positions within the window around [N], and no
    qualifying position between [est_nproj // 2] and [N] (none can lie
    closer to the start, where the window reaches the zero at position 0),
    [auto_set_angles] succeeds and sets [num_images = N + 1]: position [N]
    is the first qualifying relative minimum of the curve and the result
    is that position plus one. *)
Theorem auto_set_angles_periodic
  (st : LoadScan.LoadProjections) (p est N : Z) (ref : list (list Q)) :
  0 <= p ->
  get (LoadScan.im_stack st) p = Return ref ->
  periodic (LoadScan.im_stack st) p N ->
  1 <= est / 2 < N ->
  p + N + 1 < len (LoadScan.im_stack st) ->
  (forall j, N - est / 2 <= j <= N + est / 2 -> j <> N ->
             j < len (LoadScan.im_stack st) - p ->
             positive (take_clip (difference_curve (LoadScan.im_stack st) p ref) j)) ->
  (forall i, (Z.to_nat (est / 2) < i < Z.to_nat N)%nat ->
             qualifies (est / 2) (difference_curve (LoadScan.im_stack st) p ref) i
             = false) ->
  outcome_of (LoadScan.auto_set_angles est p st) = Return tt /\
  LoadScan.num_images (state_after (LoadScan.auto_set_angles est p st)) = Some (N + 1) /\
  qualifies (est / 2) (difference_curve (LoadScan.im_stack st) p ref)
            (Z.to_nat N) = true /\
  (forall i, (i < Z.to_nat N)%nat ->
             qualifies (est / 2) (difference_curve (LoadScan.im_stack st) p ref) i
             = false).
Proof.
  intros Hp Hg Hper Ho Hlen Hpos Hnone.
  set (s := LoadScan.im_stack st) in *.
  set (d := difference_curve s p ref) in *.
  assert (Hd : len d = len s - p).
  { apply difference_curve_length. lia. }
  assert (Hzero : sd_zero (take_clip d N)).
  { rewrite take_clip_inside by lia. unfold d.
    rewrite (@difference_curve_nth s p ref ref).
    - apply std_self_zero.
    - exact Hp.
    - rewrite Z2Nat.id by lia. rewrite <- Hg.
      replace (p + N) with (p + N * 1) by lia. apply Hper; lia. }
  assert (Hq : qualifies (est / 2) d (Z.to_nat N) = true).
  { apply qualifies_true. intros k Hk. rewrite Z2Nat.id by lia.
    unfold sd_lt. unfold sd_zero in Hzero. rewrite Hzero. split.
    - destruct (Z.le_gt_cases (N + k) (len d - 1)) as [Hin|Hout].
      + apply Hpos; lia.
      + rewrite take_clip_above by lia. apply Hpos; lia.
    - apply Hpos; lia. }
  assert (Hlow : forall i, (i < Z.to_nat N)%nat -> qualifies (est / 2) d i = false).
  { intros i Hi. destruct (Nat.le_gt_cases i (Z.to_nat (est / 2))) as [Hnear|Hfar];
      [|apply Hnone; lia].
    destruct i as [|i]; [apply qualifies_first; lia|].
    apply (@qualifies_false_by (est / 2) d (S i) (Z.of_nat (S i))); [lia|].
    right. rewrite Z.sub_diag. rewrite !take_clip_inside by lia.
    unfold d. rewrite (@difference_curve_nth s p ref ref) by (simpl; rewrite ?Z.add_0_r; assumption).
    rewrite Nat2Z.id.
    rewrite (@difference_curve_nth s p ref (nth (Z.to_nat (p + Z.of_nat (S i))) s []))
      by (try assumption; apply get_in_bounds; lia).
    assert (Hz0 := std_self_zero ref). unfold sd_zero in Hz0.
    unfold sd_le. rewrite Hz0. apply std_nonneg. }
  destruct (@filter_seq_first (qualifies (est / 2) d) (length d) 0 (Z.to_nat N))
    as [rest Hrest].
  { unfold len in *. lia. }
  { exact Hq. }
  { intros j Hj. apply Hlow. lia. }
  rewrite (@auto_set_angles_run st est p ref Hg) by (fold s; lia).
  fold s. fold d. rewrite Hrest. simpl.
  repeat split; try assumption.
  f_equal. lia.
Qed.

(** The sample of period 3 with [est_nproj = 4] meets the hypotheses:
    four images are reported. *)
Lemma auto_set_angles_periodic_witness :
  LoadScan.num_images
    (state_after (LoadScan.auto_set_angles 4 0 (LoadScan.init Samples.period3)))
  = Some (3 + 1).
Proof.
  apply (@auto_set_angles_periodic (LoadScan.init Samples.period3) 0 4 3
                                   (Samples.two_px 0 0)).
  - lia.
  - reflexivity.
  - intros k Hk Hlt. change (len (LoadScan.im_stack (LoadScan.init Samples.period3)))
      with 7 in Hlt.
    assert (Hc : k = 0 \/ k = 1 \/ k = 2) by lia.
    destruct Hc as [->|[->| ->]]; reflexivity.
  - change (4 / 2) with 2. lia.
  - change (len (LoadScan.im_stack (LoadScan.init Samples.period3))) with 7. lia.
  - intros j Hw Hne Hlt. change (4 / 2) with 2 in Hw.
    change (len (LoadScan.im_stack (LoadScan.init Samples.period3))) with 7 in Hlt.
    assert (Hc : j = 1 \/ j = 2 \/ j = 4 \/ j = 5) by lia.
    destruct Hc as [->|[->|[->| ->]]]; vm_compute; reflexivity.
  - intros i Hi. change (Z.to_nat (4 / 2)) with 2%nat in Hi.
    change (Z.to_nat 3) with 3%nat in Hi. lia.
Defined.

(** C1 fails as stated: the sample repeats with period 3 and the window
    half-width 4 // 2 = 2 is below the period, yet four images are
    reported, not three. *)
Lemma auto_set_angles_period_counterexample :
  periodic Samples.period3 0 3 /\
  4 / 2 <= 3 /\
  LoadScan.num_images
    (state_after (LoadScan.auto_set_angles 4 0 (LoadScan.init Samples.period3)))
  = Some 4 /\
  Some 4 <> Some 3.
Proof.
  split; [|split; [|split]].
  - intros k Hk Hlt. change (len Samples.period3) with 7 in Hlt.
    assert (Hc : k = 0 \/ k = 1 \/ k = 2) by lia.
    destruct Hc as [->|[->| ->]]; reflexivity.
  - vm_compute. discriminate.
  - vm_compute. reflexivity.
  - discriminate.
Qed.

(** The difference curve of three equal frames is flat, so it has no
    relative minimum for any window. *)
Lemma still_curve_flat (z : Z) :
  (radicand (take_clip (difference_curve Samples.still 0 (Samples.two_px 0 0)) z)
   == 0)%Q.
Proof.
  unfold take_clip.
  change (len (difference_curve Samples.still 0 (Samples.two_px 0 0))) with 3.
  assert (Hc : Z.to_nat (Z.max 0 (Z.min z (3 - 1))) = 0%nat \/
               Z.to_nat (Z.max 0 (Z.min z (3 - 1))) = 1%nat \/
               Z.to_nat (Z.max 0 (Z.min z (3 - 1))) = 2%nat) by lia.
  destruct Hc as [->|[->| ->]]; vm_compute; reflexivity.
Qed.

Lemma still_no_minimum (order : Z) (i : nat) :
  1 <= order ->
  qualifies order (difference_curve Samples.still 0 (Samples.two_px 0 0)) i
  = false.
Proof.
  intros H. apply (@qualifies_false_by order _ i 1); [lia|].
  left. unfold sd_le. rewrite !still_curve_flat. apply Qle_refl.
Qed.

(** C7 (as amended).  With a valid reference frame and a window
    half-width of at least 1, a difference curve without a qualifying
    relative minimum makes [auto_set_angles] fail with the [IndexError]
    raised where the first minimum is looked up, and with no other error;
    [p0] is set and no other field changes.  This holds for
    [load_scan.py], where the half-width is [est_nproj // 2], and for
    [tomo_scan.py], where it is [order]. *)
Theorem auto_set_angles_no_minimum :
  (forall (st : LoadScan.LoadProjections) (est p : Z) (ref : list (list Q)),
      get (LoadScan.im_stack st) p = Return ref ->
      2 <= est ->
      (forall i, qualifies (est / 2)
                           (difference_curve (LoadScan.im_stack st) p ref) i
                 = false) ->
      LoadScan.auto_set_angles est p st = (LoadScan.set_p0 p st, Raise IndexError)) /\
  (forall (E : Externals) (ts : TomoScan.TomoScan) (order p : Z)
          (f0 : list (list Q)) (d : list sd),
      get (TomoScan.im_stack ts) p = Return f0 ->
      1 <= order ->
      TomoScan.scan_curve (TomoScan.im_stack ts) p (downscale_local_mean f0 (3, 3))
      = Return d ->
      (forall i, qualifies order d i = false) ->
      TomoScan.auto_set_angles order p ts = (TomoScan.set_p0 p ts, Raise IndexError)).
Proof.
  split.
  - intros st est p ref Hg He Hnone.
    assert (Ho : 1 <= est / 2) by (apply Z.div_le_lower_bound; lia).
    rewrite (@auto_set_angles_run st est p ref Hg (get_Return_room _ _ Hg) Ho).
    rewrite filter_seq_none; [reflexivity|]. intros j _. apply Hnone.
  - intros E ts order p f0 d Hg Ho Hd Hnone.
    unfold TomoScan.auto_set_angles, bind, write, read, lift. simpl.
    rewrite Hg.
    assert (Hroom := get_Return_room _ _ Hg).
    destruct (len (TomoScan.im_stack ts) - p <? 0) eqn:Hneg;
      [apply Z.ltb_lt in Hneg; lia|].
    rewrite Hd. unfold argrelmin.
    destruct (order <? 1) eqn:Hlt; [apply Z.ltb_lt in Hlt; lia|].
    rewrite filter_seq_none; [reflexivity|]. intros j _. apply Hnone.
Qed.

(** Three equal frames with [est_nproj = 2]: the lookup of the first
    minimum fails. *)
Lemma auto_set_angles_no_minimum_witness :
  LoadScan.auto_set_angles 2 0 (LoadScan.init Samples.still)
  = (LoadScan.set_p0 0 (LoadScan.init Samples.still), Raise IndexError) /\
  TomoScan.auto_set_angles (E := Samples.stand_ins) 1 0 (TomoScan.init Samples.still)
  = (TomoScan.set_p0 0 (TomoScan.init Samples.still), Raise IndexError).
Proof.
  split.
  - apply (proj1 auto_set_angles_no_minimum) with (ref := Samples.two_px 0 0).
    + reflexivity.
    + lia.
    + intros i. apply still_no_minimum. vm_compute. discriminate.
  - apply (proj2 auto_set_angles_no_minimum) with
      (f0 := Samples.two_px 0 0)
      (d := difference_curve Samples.still 0 (Samples.two_px 0 0)).
    + reflexivity.
    + lia.
    + reflexivity.
    + intros i. apply still_no_minimum. lia.
Defined.

(** C7 fails as stated: with [est_nproj = 1] the flat curve of three equal
    frames has no relative minimum for any window, and the failure is the
    [ValueError] of the minimum search, not the [IndexError] of the
    lookup. *)
Lemma auto_set_angles_error_counterexample :
  (forall order i, 1 <= order ->
     qualifies order (difference_curve Samples.still 0 (Samples.two_px 0 0)) i
     = false) /\
  outcome_of (LoadScan.auto_set_angles 1 0 (LoadScan.init Samples.still))
  = Raise ValueError /\
  outcome_of (LoadScan.auto_set_angles 1 0 (LoadScan.init Samples.still))
  <> Raise IndexError.
Proof.
  split; [|split].
  - intros order i H. apply still_no_minimum. exact H.
  - reflexivity.
  - discriminate.
Qed.

(** * Manual angle calibration *)

(** C6 (as amended).  With [ang_range] other than 180 and 360, manual
    angle calibration fails with the [AssertionError] of its range check;
    [num_images], [angles] and the other fields keep their values, except
    [p0], which is already set to the argument. *)
Theorem set_angles_invalid_range :
  (forall (st : LoadScan.LoadProjections) (n r p : Z),
      r <> 180 -> r <> 360 ->
      outcome_of (LoadScan.set_angles n r p st) = Raise AssertionError /\
      state_after (LoadScan.set_angles n r p st) = LoadScan.set_p0 p st /\
      LoadScan.num_images (state_after (LoadScan.set_angles n r p st))
      = LoadScan.num_images st /\
      LoadScan.angles (state_after (LoadScan.set_angles n r p st)) = LoadScan.angles st /\
      LoadScan.p0 (state_after (LoadScan.set_angles n r p st)) = p) /\
  (forall (E : Externals) (ts : TomoScan.TomoScan) (p : Z) (n r : option Z),
      r <> Some 180 -> r <> Some 360 ->
      outcome_of (TomoScan.manual_set_angles false p n r ts) = Raise AssertionError /\
      state_after (TomoScan.manual_set_angles false p n r ts) = TomoScan.set_p0 p ts).
Proof.
  split.
  - intros st n r p H1 H2.
    unfold LoadScan.set_angles, bind, write, assert, lift, state_after, outcome_of. simpl.
    destruct (r =? 180) eqn:E1; [apply Z.eqb_eq in E1; contradiction|].
    destruct (r =? 360) eqn:E2; [apply Z.eqb_eq in E2; contradiction|].
    simpl. repeat split.
  - intros E ts p n r H1 H2.
    unfold TomoScan.manual_set_angles, bind, write, assert, lift, state_after, outcome_of.
    simpl. destruct r as [r|]; [|simpl; split; reflexivity].
    destruct (r =? 180) eqn:E1; [apply Z.eqb_eq in E1; congruence|].
    destruct (r =? 360) eqn:E2; [apply Z.eqb_eq in E2; congruence|].
    simpl. split; reflexivity.
Qed.

Lemma set_angles_invalid_range_witness :
  outcome_of (LoadScan.set_angles 10 90 5 (LoadScan.init Samples.still))
  = Raise AssertionError /\
  state_after (TomoScan.manual_set_angles (E := Samples.stand_ins) false 5 (Some 10) (Some 90)
                                          (TomoScan.init Samples.still))
  = TomoScan.set_p0 5 (TomoScan.init Samples.still).
Proof.
  split.
  - apply (proj1 set_angles_invalid_range); lia.
  - apply (proj2 set_angles_invalid_range); congruence.
Defined.

(** C6 fails as stated: the rejected call with [ang_range = 90] changes
    [p0] from 0 to 5. *)
Lemma set_angles_atomicity_counterexample :
  outcome_of (LoadScan.set_angles 10 90 5 (LoadScan.init Samples.still))
  = Raise AssertionError /\
  LoadScan.p0 (LoadScan.init Samples.still) = 0 /\
  LoadScan.p0 (state_after (LoadScan.set_angles 10 90 5 (LoadScan.init Samples.still))) = 5 /\
  LoadScan.p0 (state_after (LoadScan.set_angles 10 90 5 (LoadScan.init Samples.still)))
  <> LoadScan.p0 (LoadScan.init Samples.still).
Proof.
  repeat split. discriminate.
Qed.

(** * The angle sequence *)

Section AngleSequence.
Local Open Scope Q_scope.

Lemma nth_map_seq {A} (f : nat -> A) (n k : nat) (d : A) :
  (k < n)%nat -> nth k (map f (seq 0 n)) d = f k.
Proof.
  intros H. rewrite (nth_indep _ d (f 0%nat)) by (rewrite length_map, length_seq; exact H).
  rewrite (map_nth f). rewrite seq_nth by exact H. reflexivity.
Qed.

Lemma get_last {A} (l : list A) (d : A) :
  (1 <= len l)%Z -> get l (-1) = Return (nth (Z.to_nat (len l - 1)) l d).
Proof.
  intros H. unfold get. change (-1 <? 0)%Z with true. cbv iota.
  replace (len l + -1)%Z with (len l - 1)%Z by lia.
  destruct (len l - 1 <? 0)%Z eqn:Hn; [apply Z.ltb_lt in Hn; lia|].
  rewrite (nth_error_nth' l d) by (unfold len in *; lia). reflexivity.
Qed.

(** The float samples of [np.linspace(0, stop, num)] for [num >= 2]. *)
Lemma linspace_calibrated (stop : Q) (num : Z) :
  0 < stop -> (2 <= num)%Z ->
  calibrated (map (linspace_entry stop num) (seq 0 (Z.to_nat num))) num stop /\
  ascending (map (linspace_entry stop num) (seq 0 (Z.to_nat num))).
Proof.
  intros Hs Hn.
  set (a := map (linspace_entry stop num) (seq 0 (Z.to_nat num))).
  assert (Hlen : len a = num).
  { unfold a, len. rewrite length_map, length_seq. lia. }
  assert (Hasc : ascending a).
  { intros i j Hij. unfold a in *. rewrite length_map, length_seq in Hij.
    rewrite !nth_map_seq by lia. apply linspace_entry_lt; try assumption. lia. }
  split; [|exact Hasc].
  split; [exact Hlen|]. split; [|split].
  - exists (nth 0 a 0). split.
    + apply get_in_bounds. lia.
    + unfold a. rewrite nth_map_seq by lia. apply linspace_entry_first. exact Hn.
  - exists (nth (Z.to_nat (len a - 1)) a 0). split.
    + apply get_last. lia.
    + rewrite Hlen. unfold a. rewrite nth_map_seq by lia.
      rewrite linspace_entry_last by exact Hn. reflexivity.
  - intros i j Hij. apply Qlt_le_weak. apply Hasc. exact Hij.
Qed.

(** The integer samples of [np.linspace(0, 360, num, dtype=int)] for
    [num >= 2]. *)
Lemma linspace_int_calibrated (num : Z) :
  (2 <= num)%Z ->
  calibrated (map (fun k => inject_Z (Qfloor (linspace_entry 360 num k)))
                  (seq 0 (Z.to_nat num))) num 360.
Proof.
  intros Hn.
  set (a := map (fun k => inject_Z (Qfloor (linspace_entry 360 num k)))
                (seq 0 (Z.to_nat num))).
  assert (Hlen : len a = num).
  { unfold a, len. rewrite length_map, length_seq. lia. }
  split; [exact Hlen|]. split; [|split].
  - exists (nth 0 a 0). split.
    + apply get_in_bounds. lia.
    + unfold a. rewrite nth_map_seq by lia.
      rewrite (Qfloor_comp _ 0) by (apply linspace_entry_first; exact Hn).
      reflexivity.
  - exists (nth (Z.to_nat (len a - 1)) a 0). split.
    + apply get_last. lia.
    + rewrite Hlen. unfold a. rewrite nth_map_seq by lia.
      rewrite linspace_entry_last by exact Hn. reflexivity.
  - intros i j Hij. unfold a in *. rewrite length_map, length_seq in Hij.
    rewrite !nth_map_seq by lia. rewrite <- Zle_Qle. apply Qfloor_resp_le.
    apply Qlt_le_weak. apply linspace_entry_lt; try lia. reflexivity.
Qed.
End AngleSequence.

(** C8 (as amended).  After [set_angles] with [num_images >= 2] and
    [ang_range] 180 or 360, [angles] has [num_images] entries, starts at
    0, ascends strictly and ends at [ang_range].  After every successful
    [auto_set_angles], [num_images] is at least 2 and [angles] has
    [num_images] entries, starts at 0, never descends and ends at 360. *)
Theorem angles_invariant :
  (forall (st : LoadScan.LoadProjections) (n r p : Z),
      2 <= n -> r = 180 \/ r = 360 ->
      outcome_of (LoadScan.set_angles n r p st) = Return tt /\
      LoadScan.num_images (state_after (LoadScan.set_angles n r p st)) = Some n /\
      exists a, LoadScan.angles (state_after (LoadScan.set_angles n r p st)) = Some a /\
                calibrated a n (inject_Z r) /\ ascending a) /\
  (forall (st : LoadScan.LoadProjections) (est p : Z),
      outcome_of (LoadScan.auto_set_angles est p st) = Return tt ->
      exists a n,
        LoadScan.num_images (state_after (LoadScan.auto_set_angles est p st)) = Some n /\
        LoadScan.angles (state_after (LoadScan.auto_set_angles est p st)) = Some a /\
        2 <= n /\ calibrated a n 360).
Proof.
  split.
  - intros st n r p Hn Hr.
    assert (Hc : (r =? 180) || (r =? 360) = true).
    { destruct Hr as [-> | ->]; reflexivity. }
    unfold LoadScan.set_angles, bind, write, assert, lift, state_after, outcome_of. simpl.
    rewrite Hc. simpl. rewrite linspace_Return by lia. simpl.
    split; [reflexivity|]. split; [reflexivity|].
    eexists. split; [reflexivity|].
    apply linspace_calibrated; [|exact Hn].
    destruct Hr as [-> | ->]; reflexivity.
  - intros st est p.
    unfold LoadScan.auto_set_angles, bind, write, read, lift, state_after, outcome_of.
    simpl.
    destruct (len (LoadScan.im_stack st) - p <? 0); [discriminate|].
    destruct (get (LoadScan.im_stack st) p) as [ref|e]; [|discriminate].
    destruct (argrelmin _ _) as [minimas|e] eqn:Hmin; [|discriminate].
    destruct minimas as [|m0 rest]; [discriminate|].
    apply argrelmin_first in Hmin. destruct Hmin as [_ [Hm0 _]].
    unfold get at 1. simpl.
    rewrite linspace_int_Return by lia. simpl. intros _.
    eexists. eexists. split; [reflexivity|]. split; [reflexivity|].
    split; [lia|]. apply linspace_int_calibrated. lia.
Qed.

Lemma angles_invariant_witness :
  (exists a, LoadScan.angles (state_after (LoadScan.set_angles 3 180 5
                                             (LoadScan.init Samples.still))) = Some a /\
             calibrated a 3 (inject_Z 180) /\ ascending a) /\
  (exists a n,
      LoadScan.num_images
        (state_after (LoadScan.auto_set_angles 4 0 (LoadScan.init Samples.period3))) = Some n /\
      LoadScan.angles
        (state_after (LoadScan.auto_set_angles 4 0 (LoadScan.init Samples.period3))) = Some a /\
      2 <= n /\ calibrated a n 360).
Proof.
  split.
  - apply (proj1 angles_invariant); [lia | left; reflexivity].
  - apply (proj2 angles_invariant). vm_compute. reflexivity.
Defined.

(** C8 fails as stated: [set_angles] with [num_images = 1] and
    [ang_range = 360] succeeds with the single angle 0, so the last angle
    is not 360. *)
Lemma angles_single_image_counterexample :
  outcome_of (LoadScan.set_angles 1 360 5 (LoadScan.init Samples.still)) = Return tt /\
  exists a y,
    LoadScan.angles (state_after (LoadScan.set_angles 1 360 5 (LoadScan.init Samples.still)))
    = Some a /\
    get a (-1) = Return y /\ (y == 0)%Q /\ ~ (y == 360)%Q.
Proof.
  split; [reflexivity|].
  eexists. eexists. split; [reflexivity|]. split; [reflexivity|].
  split; [reflexivity|]. intros H. vm_compute in H. discriminate.
Qed.

(** * Automatic centre calibration *)

Section FirstMinimum.

Lemma skipn_cons_inv {A} (d : list A) (i : nat) (y : A) (l : list A) (dflt : A) :
  skipn i d = y :: l -> (i < length d)%nat /\ nth i d dflt = y /\ skipn (S i) d = l.
Proof.
  revert d. induction i as [|i IH]; intros d H.
  - destruct d as [|x d]; simpl in H; [discriminate|].
    injection H as -> ->. simpl. repeat split. lia.
  - destruct d as [|x d]; simpl in H; [discriminate|].
    apply IH in H. destruct H as [Hlt [Hn Hs]].
    simpl. repeat split; [lia|exact Hn|exact Hs].
Qed.

Lemma sd_le_refl (a : sd) : sd_le a a.
Proof. unfold sd_le. apply Qle_refl. Qed.

Lemma sd_lt_le_trans (a b c : sd) : sd_lt a b -> sd_le b c -> sd_lt a c.
Proof. unfold sd_lt, sd_le. apply Qlt_le_trans. Qed.

Lemma sd_lt_le (a b : sd) : sd_lt a b -> sd_le a b.
Proof. unfold sd_lt, sd_le. apply Qlt_le_weak. Qed.

Lemma argmin_from_spec (d : list sd) (l : list sd) :
  forall (i best : nat) (bv : sd),
    skipn i d = l -> (best < i)%nat -> bv = nth best d (Sqrt 0) ->
    (best < length d)%nat ->
    (forall j, (j < i)%nat -> (j < length d)%nat -> sd_le bv (nth j d (Sqrt 0))) ->
    (forall j, (j < best)%nat -> sd_lt bv (nth j d (Sqrt 0))) ->
    (argmin_from i best bv l < length d)%nat /\
    (forall j, (j < length d)%nat ->
               sd_le (nth (argmin_from i best bv l) d (Sqrt 0)) (nth j d (Sqrt 0))) /\
    (forall j, (j < argmin_from i best bv l)%nat ->
               sd_lt (nth (argmin_from i best bv l) d (Sqrt 0)) (nth j d (Sqrt 0))).
Proof.
  induction l as [|y l IH]; intros i best bv Hs Hbi Hbv Hbd Hle Hlt; simpl.
  - assert (Hlen : (length d <= i)%nat).
    { assert (H := length_skipn i d). rewrite Hs in H. simpl in H. lia. }
    subst bv. repeat split; [exact Hbd| |exact Hlt].
    intros j Hj. apply Hle; lia.
  - destruct (skipn_cons_inv d i (Sqrt 0) Hs) as [Hid [Hn Hs']].
    destruct (sd_ltb y bv) eqn:Hc.
    + apply sd_ltb_lt in Hc. apply IH; try assumption; try lia.
      * symmetry. exact Hn.
      * intros j Hj Hjd. destruct (Nat.eq_dec j i) as [->|Hne].
        -- rewrite Hn. apply sd_le_refl.
        -- apply sd_lt_le. apply (sd_lt_le_trans Hc). apply Hle; lia.
      * intros j Hj. apply (sd_lt_le_trans Hc). apply Hle; lia.
    + apply sd_ltb_ge in Hc. apply IH; try assumption; try lia.
      intros j Hj Hjd. destruct (Nat.eq_dec j i) as [->|Hne].
      * rewrite Hn. exact Hc.
      * apply Hle; lia.
Qed.

(** [np.argmin] on a non-empty curve returns the first position of its
    smallest entry. *)
Lemma argmin_spec (d : list sd) :
  d <> [] ->
  exists m, argmin d = Return m /\ (m < length d)%nat /\
            (forall j, (j < length d)%nat -> sd_le (nth m d (Sqrt 0)) (nth j d (Sqrt 0))) /\
            (forall j, (j < m)%nat -> sd_lt (nth m d (Sqrt 0)) (nth j d (Sqrt 0))).
Proof.
  destruct d as [|x l]; [congruence|]. intros _.
  exists (argmin_from 1 0 x l). split; [reflexivity|].
  apply argmin_from_spec.
  - reflexivity.
  - lia.
  - reflexivity.
  - simpl. lia.
  - intros j Hj _. assert (j = 0%nat) as -> by lia. apply sd_le_refl.
  - intros j Hj. lia.
Qed.

Lemma centre_curve_nth (half_win : Z) (flipped ref : list (list Q)) (shifts : list Z)
      (k : nat) :
  (k < length shifts)%nat ->
  nth k (centre_curve half_win flipped ref shifts) (Sqrt 0)
  = shift_std half_win flipped ref (nth k shifts 0).
Proof.
  intros H. unfold centre_curve.
  rewrite (nth_indep _ (Sqrt 0) (shift_std half_win flipped ref 0))
    by (rewrite length_map; exact H).
  exact (map_nth (shift_std half_win flipped ref) shifts 0 k).
Qed.

Lemma centre_curve_length (half_win : Z) (flipped ref : list (list Q)) (shifts : list Z) :
  length (centre_curve half_win flipped ref shifts) = length shifts.
Proof. unfold centre_curve. apply length_map. Qed.

Lemma nth_rev_range (a b : Z) (k : nat) :
  (k < Z.to_nat (b - a))%nat -> nth k (rev (range a b)) 0 = b - 1 - Z.of_nat k.
Proof.
  intros H. rewrite rev_nth by (rewrite range_length; exact H).
  rewrite range_length. rewrite nth_range by lia. lia.
Qed.

(** The search over a window of half-width [hw >= 1], the curve being
    filled from the list [shifts] of the same length as the window. *)
Lemma window_search (hw : Z) (flipped ref : list (list Q)) (shifts : list Z) :
  1 <= hw -> length shifts = Z.to_nat (hw - - hw) ->
  exists m,
    argmin (centre_curve hw flipped ref shifts) = Return m /\
    get (range (- hw) hw) (Z.of_nat m) = Return (- hw + Z.of_nat m) /\
    (m < Z.to_nat (2 * hw))%nat /\
    (forall j, (j < Z.to_nat (2 * hw))%nat ->
               sd_le (shift_std hw flipped ref (nth m shifts 0))
                     (shift_std hw flipped ref (nth j shifts 0))) /\
    (forall j, (j < m)%nat ->
               sd_lt (shift_std hw flipped ref (nth m shifts 0))
                     (shift_std hw flipped ref (nth j shifts 0))).
Proof.
  intros Hhw Hlen.
  destruct (@argmin_spec (centre_curve hw flipped ref shifts)) as [m [Ha [Hm [Hle Hlt]]]].
  { intros H. apply (f_equal (@length sd)) in H.
    rewrite centre_curve_length, Hlen in H. simpl in H. lia. }
  rewrite centre_curve_length in Hm, Hle.
  exists m. split; [exact Ha|]. split; [|split; [lia|split]].
  - rewrite (@get_in_bounds _ (range (- hw) hw) (Z.of_nat m) 0)
      by (unfold len; rewrite range_length; lia).
    rewrite Nat2Z.id. rewrite nth_range by lia. reflexivity.
  - intros j Hj. rewrite <- !centre_curve_nth by lia. apply Hle. lia.
  - intros j Hj. rewrite <- !centre_curve_nth by lia. apply Hlt. exact Hj.
Qed.
End FirstMinimum.




(** * Silhouette carving: bias and threshold *)

Section Extremes.
Local Open Scope Q_scope.
Import LoadScan.

Lemma amax_spec (x : Q) (l : list Q) :
  In (amax x l) (x :: l) /\ forall v, In v (x :: l) -> v <= amax x l.
Proof.
  induction l as [|a l [IHin IHle]].
  - simpl. split; [left; reflexivity|].
    intros v [<-|[]]. apply Qle_refl.
  - unfold amax in *. simpl fold_right.
    destruct (Qle_bool a (fold_right _ x l)) eqn:Hc.
    + apply Qle_bool_iff in Hc. split.
      * destruct IHin as [H|H]; [left; exact H|right; right; exact H].
      * intros v [<-|[<-|Hv]].
        -- apply IHle. left. reflexivity.
        -- exact Hc.
        -- apply IHle. right. exact Hv.
    + assert (Hlt : fold_right (fun a b : Q => if Qle_bool a b then b else a) x l < a).
      { apply Qnot_le_lt. intros H. apply Qle_bool_iff in H. congruence. }
      split.
      * right. left. reflexivity.
      * intros v [<-|[<-|Hv]].
        -- apply Qlt_le_weak. eapply Qle_lt_trans; [|exact Hlt].
           apply IHle. left. reflexivity.
        -- apply Qle_refl.
        -- apply Qlt_le_weak. eapply Qle_lt_trans; [|exact Hlt].
           apply IHle. right. exact Hv.
Qed.

Lemma amin_spec (x : Q) (l : list Q) :
  In (amin x l) (x :: l) /\ forall v, In v (x :: l) -> amin x l <= v.
Proof.
  induction l as [|a l [IHin IHle]].
  - simpl. split; [left; reflexivity|].
    intros v [<-|[]]. apply Qle_refl.
  - unfold amin in *. simpl fold_right.
    destruct (Qle_bool (fold_right _ x l) a) eqn:Hc.
    + apply Qle_bool_iff in Hc. split.
      * destruct IHin as [H|H]; [left; exact H|right; right; exact H].
      * intros v [<-|[<-|Hv]].
        -- apply IHle. left. reflexivity.
        -- exact Hc.
        -- apply IHle. right. exact Hv.
    + assert (Hlt : a < fold_right (fun a b : Q => if Qle_bool b a then b else a) x l).
      { apply Qnot_le_lt. intros H. apply Qle_bool_iff in H. congruence. }
      split.
      * right. left. reflexivity.
      * intros v [<-|[<-|Hv]].
        -- apply Qlt_le_weak. eapply Qlt_le_trans; [exact Hlt|].
           apply IHle. left. reflexivity.
        -- apply Qle_refl.
        -- apply Qlt_le_weak. eapply Qlt_le_trans; [exact Hlt|].
           apply IHle. right. exact Hv.
Qed.
End Extremes.

(** C2 (as amended).  When the loop of [visualhulls_recon] ends with the
    non-empty accumulator [full], the result is [full] with the floor of
    one quarter of [max(full) - min(full)] added to every cell, and then
    every cell below 0.5 set to 0 and every other cell kept. *)
Theorem visualhulls_bias_and_threshold
  (E : Externals) (n : option Z) (angs : option (list Q))
  (sino : list (list Q)) (threshold : Q) (full : list (list Q)) :
  LoadScan.accumulator n angs sino threshold = Return full ->
  flatten full <> [] ->
  exists hi lo : Q,
    In hi (flatten full) /\ (forall v, In v (flatten full) -> (v <= hi)%Q) /\
    In lo (flatten full) /\ (forall v, In v (flatten full) -> (lo <= v)%Q) /\
    LoadScan.visualhulls_recon n angs sino threshold =
    Return (map (map (fun v => if Qltb (v + inject_Z (Qfloor ((hi - lo) / 4))) (1 # 2)
                               then 0%Q
                               else (v + inject_Z (Qfloor ((hi - lo) / 4)))%Q))
                full).
Proof.
  intros Hacc Hne.
  unfold LoadScan.visualhulls_recon. rewrite Hacc. simpl.
  unfold LoadScan.bias_and_threshold, LoadScan.data_range.
  destruct (flatten full) as [|x l] eqn:Hf; [congruence|].
  destruct (amax_spec x l) as [Hin1 Hle1].
  destruct (amin_spec x l) as [Hin2 Hle2].
  exists (LoadScan.amax x l), (LoadScan.amin x l).
  repeat split; try assumption. 
Qed.

Lemma visualhulls_bias_and_threshold_witness :
  exists hi lo : Q,
    LoadScan.visualhulls_recon (E := Samples.stand_ins) (Some 1) (Some [0%Q])
                               Samples.half_shadow (1 # 2) =
    Return (map (map (fun v => if Qltb (v + inject_Z (Qfloor ((hi - lo) / 4))) (1 # 2)
                               then 0%Q
                               else (v + inject_Z (Qfloor ((hi - lo) / 4)))%Q))
                [[0; 1]; [0; 1]]%Q).
Proof.
  destruct (@visualhulls_bias_and_threshold Samples.stand_ins (Some 1) (Some [0%Q])
              Samples.half_shadow (1 # 2) [[0; 1]; [0; 1]]%Q)
    as [hi [lo [_ [_ [_ [_ H]]]]]].
  - reflexivity.
  - discriminate.
  - exists hi, lo. exact H.
Defined.

(** C2 fails as stated: for one view at 0 degrees of a clear and an
    absorbing detector column the accumulator is 0 and 1 per row, its
    range is 1, and the kept cells come out as 1; with an exact quarter
    of the range added they would be 5/4. *)
Lemma visualhulls_exact_quarter_counterexample :
  LoadScan.accumulator (E := Samples.stand_ins) (Some 1) (Some [0%Q])
                       Samples.half_shadow (1 # 2)
  = Return [[0; 1]; [0; 1]]%Q /\
  LoadScan.visualhulls_recon (E := Samples.stand_ins) (Some 1) (Some [0%Q])
                             Samples.half_shadow (1 # 2)
  = Return [[0; 1]; [0; 1]]%Q /\
  bias_and_threshold_exact_quarter [[0; 1]; [0; 1]]%Q = Return [[0; 5 # 4]; [0; 5 # 4]]%Q /\
  ~ (1 == 5 # 4)%Q.
Proof.
  repeat split. intros H. vm_compute in H. discriminate.
Qed.

(** * Averaging over rotations *)

(** C4 (the code departs from the claim).  Four one-pixel frames 0, 1, 2,
    3 with [p0 = 0] and [num_images = 2] hold two rotations.  Averaging
    returns the two frames 1/2 and 5/2, the means of the neighbouring
    pairs (0, 1) and (2, 3); the means across the rotations, of (0, 2)
    and (1, 3), are 1 and 2. *)
Theorem average_groups_neighbouring_frames :
  LoadScan.select_frames true Samples.ramp_scan
  = Return (LoadScan.Own [[[1 # 2]]; [[5 # 2]]]%Q) /\
  mean_across_rotations Samples.ramp 1 1 2 2 = [[[2 # 2]]; [[4 # 2]]]%Q /\
  ~ (1 # 2 == 2 # 2)%Q.
Proof.
  repeat split. intros H. vm_compute in H. discriminate.
Qed.

(** * Circular crop *)

Section CircleCrop.
Import LoadScan.

Lemma half_square_nonneg (rw : Z) : (0 <= IZR (rw * rw) / 2)%R.
Proof.
  assert (H : (0 <= IZR (rw * rw))%R) by (apply IZR_le; nia).
  lra.
Qed.

(** Not exceeding the real root, told on the integers. *)
Lemma within_root_iff (v rw : Z) :
  within_root v rw <-> v <= 0 \/ 2 * (v * v) <= rw * rw.
Proof.
  unfold within_root. assert (HX := half_square_nonneg rw). split.
  - intros H. destruct (Z_le_gt_dec v 0) as [Hv|Hv]; [left; exact Hv|right].
    assert (Hpos : (0 <= IZR v)%R) by (apply IZR_le; lia).
    assert (Hsq : (IZR v * IZR v <= sqrt (IZR (rw * rw) / 2) * sqrt (IZR (rw * rw) / 2))%R).
    { apply Rmult_le_compat; assumption. }
    rewrite sqrt_sqrt in Hsq by exact HX.
    apply le_IZR. rewrite !mult_IZR. rewrite mult_IZR in Hsq. lra.
  - intros [Hv|Hv].
    + apply Rle_trans with 0%R; [apply IZR_le; exact Hv|apply sqrt_pos].
    + destruct (Z_le_gt_dec v 0) as [Hv0|Hv0].
      * apply Rle_trans with 0%R; [apply IZR_le; exact Hv0|apply sqrt_pos].
      * assert (Hpos : (0 <= IZR v)%R) by (apply IZR_le; lia).
        rewrite <- (sqrt_square (IZR v)) at 1 by exact Hpos.
        apply sqrt_le_1_alt.
        apply IZR_le in Hv. rewrite !mult_IZR in Hv. rewrite mult_IZR. lra.
Qed.

(** [int((recon_width**2 / 2)**0.5)] is the real root rounded down. *)
Lemma root_of_half_square_real (rw : Z) :
  (IZR (root_of_half_square rw) <= sqrt (IZR (rw * rw) / 2)
   < IZR (root_of_half_square rw + 1))%R.
Proof.
  unfold root_of_half_square.
  assert (Hx : 0 <= rw * rw / 2) by (apply Z.div_pos; nia).
  destruct (Z.sqrt_spec _ Hx) as [Hlo Hhi].
  set (r := Z.sqrt (rw * rw / 2)) in *.
  assert (Hr : 0 <= r) by apply Z.sqrt_nonneg.
  assert (Hdm := Z.div_mod (rw * rw) 2 ltac:(lia)).
  assert (Hmb := Z.mod_pos_bound (rw * rw) 2 ltac:(lia)).
  split.
  - apply (within_root_iff r rw). right. nia.
  - apply Rnot_le_lt. intros H.
    apply (within_root_iff (r + 1) rw) in H. destruct H as [H|H]; [lia|].
    replace (Z.succ r * Z.succ r) with ((r + 1) * (r + 1)) in Hhi by lia. nia.
Qed.

Lemma root_of_half_square_bounds (rw : Z) :
  let r := root_of_half_square rw in
  0 <= r /\ 2 * (r * r) <= rw * rw /\ rw * rw < 2 * ((r + 1) * (r + 1)).
Proof.
  unfold root_of_half_square.
  assert (Hx : 0 <= rw * rw / 2) by (apply Z.div_pos; nia).
  destruct (Z.sqrt_spec _ Hx) as [Hlo Hhi].
  set (r := Z.sqrt (rw * rw / 2)) in *. cbv zeta.
  assert (Hr : 0 <= r) by apply Z.sqrt_nonneg.
  assert (Hdm := Z.div_mod (rw * rw) 2 ltac:(lia)).
  assert (Hmb := Z.mod_pos_bound (rw * rw) 2 ltac:(lia)).
  replace (Z.succ r * Z.succ r) with ((r + 1) * (r + 1)) in Hhi by lia.
  revert Hlo Hhi Hdm Hmb. generalize (rw * rw / 2) ((rw * rw) mod 2) (rw * rw).
  intros q m x Hlo Hhi Hdm Hmb.
  repeat split; lia.
Qed.

Lemma circle_w_cases (rw : Z) :
  let r := root_of_half_square rw in
  (circle_w rw = r /\ (r - rw) mod 2 = 0) \/
  (circle_w rw = r - 1 /\ (r - rw) mod 2 = 1).
Proof.
  simpl. unfold circle_w.
  assert (Hmb := Z.mod_pos_bound (root_of_half_square rw - rw) 2 ltac:(lia)).
  destruct ((root_of_half_square rw - rw) mod 2 =? 0) eqn:Hc.
  - left. apply Z.eqb_eq in Hc. split; [reflexivity|exact Hc].
  - right. apply Z.eqb_neq in Hc. split; [reflexivity|lia].
Qed.

Lemma circle_w_parity (rw : Z) : (circle_w rw - rw) mod 2 = 0.
Proof.
  destruct (circle_w_cases rw) as [[-> H]|[-> H]]; [exact H|].
  revert H. generalize (root_of_half_square rw). intros r H.
  Z.div_mod_to_equations. lia.
Qed.

Lemma circle_w_within (rw : Z) : 0 <= rw -> within_root (circle_w rw) rw.
Proof.
  intros Hrw. apply within_root_iff.
  destruct (root_of_half_square_bounds rw) as [Hr [Hlo _]].
  destruct (circle_w_cases rw) as [[-> _]|[-> _]].
  - right. exact Hlo.
  - destruct (Z.eq_dec (root_of_half_square rw) 0) as [Hz|Hz]; [left; lia|right; nia].
Qed.

Lemma circle_w_largest (rw v : Z) :
  (v - rw) mod 2 = 0 -> within_root v rw -> v <= circle_w rw.
Proof.
  intros Hpar Hin. apply within_root_iff in Hin.
  destruct (root_of_half_square_bounds rw) as [Hr [_ Hhi]].
  assert (Hvr : v <= root_of_half_square rw).
  { destruct Hin as [Hv|Hv]; [lia|].
    destruct (Z_le_gt_dec v (root_of_half_square rw)) as [H|H]; [exact H|]. nia. }
  destruct (circle_w_cases rw) as [[-> _]|[-> Hodd]]; [exact Hvr|].
  assert (v <> root_of_half_square rw).
  { intros ->. lia. }
  lia.
Qed.

Lemma circle_w_range (rw : Z) :
  0 <= rw -> -1 <= circle_w rw <= rw /\ (rw <> 1 -> 0 <= circle_w rw).
Proof.
  intros Hrw.
  destruct (root_of_half_square_bounds rw) as [Hr [Hlo Hhi]].
  assert (Hle : root_of_half_square rw <= rw) by nia.
  destruct (circle_w_cases rw) as [[-> _]|[-> Hodd]].
  - split; lia.
  - split; [lia|]. intros Hne.
    destruct (Z.eq_dec (root_of_half_square rw) 0) as [Hz|Hz]; [|lia].
    rewrite Hz in *. exfalso.
    assert (rw = 0 \/ rw = 1) by nia. destruct H as [->| ->]; [|lia].
    simpl in Hodd. discriminate.
Qed.

Lemma circle_margins (rw : Z) :
  0 <= rw ->
  0 <= circle_w0 rw /\ rw = circle_w0 rw + circle_w rw + circle_w0 rw.
Proof.
  intros Hrw. unfold circle_w0.
  destruct (circle_w_range Hrw) as [[Hlo Hhi] _].
  assert (Hpar := circle_w_parity rw).
  rewrite Z.quot_div_nonneg by lia.
  Z.div_mod_to_equations. lia.
Qed.
End CircleCrop.

Section Windows.
Import LoadScan.

Lemma slice_window {A} (l : list A) (a b : Z) :
  0 <= a <= len l -> 0 <= b <= len l ->
  slice (Some a) (Some b) l = firstn (Z.to_nat (b - a)) (skipn (Z.to_nat a) l).
Proof.
  intros Ha Hb. unfold slice, bound.
  destruct (a <? 0) eqn:Ea; [apply Z.ltb_lt in Ea; lia|].
  destruct (b <? 0) eqn:Eb; [apply Z.ltb_lt in Eb; lia|].
  rewrite !Z.min_l by lia. reflexivity.
Qed.

Lemma slice_window_length {A} (l : list A) (a b : Z) :
  0 <= a <= len l -> 0 <= b <= len l ->
  length (slice (Some a) (Some b) l) = Z.to_nat (b - a).
Proof.
  intros Ha Hb. rewrite slice_window by assumption.
  rewrite length_firstn, length_skipn. unfold len in *. lia.
Qed.

Lemma slice_window_nth {A} (l : list A) (a b : Z) (i : nat) (d : A) :
  0 <= a <= len l -> 0 <= b <= len l -> (i < Z.to_nat (b - a))%nat ->
  nth i (slice (Some a) (Some b) l) d = nth (Z.to_nat a + i) l d.
Proof.
  intros Ha Hb Hi. rewrite slice_window by assumption.
  rewrite nth_firstn. destruct (i <? Z.to_nat (b - a))%nat eqn:E.
  - apply nth_skipn.
  - apply Nat.ltb_ge in E. lia.
Qed.

Lemma In_firstn {A} (n : nat) (l : list A) (x : A) : In x (firstn n l) -> In x l.
Proof.
  revert l. induction n as [|n IH]; intros [|y l] H; simpl in *; try contradiction.
  destruct H as [H|H]; [left; exact H|right; apply IH; exact H].
Qed.

Lemma In_skipn {A} (n : nat) (l : list A) (x : A) : In x (skipn n l) -> In x l.
Proof.
  revert l. induction n as [|n IH]; intros [|y l] H; simpl in *; try assumption.
  right. apply IH. exact H.
Qed.

(** Cropping a slice of side [n] at [a:b] in both directions. *)
Lemma crop_square (n : nat) (sl : list (list Q)) (a b : Z) :
  square n sl -> 0 <= a <= Z.of_nat n -> 0 <= b <= Z.of_nat n ->
  square (Z.to_nat (b - a)) (cols (Some a) (Some b) (slice (Some a) (Some b) sl)) /\
  forall i j, (i < Z.to_nat (b - a))%nat -> (j < Z.to_nat (b - a))%nat ->
              nth j (nth i (cols (Some a) (Some b) (slice (Some a) (Some b) sl)) []) 0%Q
              = nth (Z.to_nat a + j) (nth (Z.to_nat a + i) sl []) 0%Q.
Proof.
  intros [Hlen Hrows] Ha Hb.
  assert (Hl : len sl = Z.of_nat n) by (unfold len; lia).
  assert (Hsub : Forall (fun row : list Q => length row = n) (slice (Some a) (Some b) sl)).
  { rewrite slice_window by lia. apply Forall_forall. intros row Hin.
    apply In_firstn, In_skipn in Hin.
    rewrite Forall_forall in Hrows. apply Hrows. exact Hin. }
  split.
  - split.
    + unfold cols. rewrite length_map. apply slice_window_length; lia.
    + unfold cols. apply Forall_forall. intros row Hin.
      apply in_map_iff in Hin. destruct Hin as [row0 [<- Hin0]].
      rewrite Forall_forall in Hsub. specialize (Hsub row0 Hin0).
      apply slice_window_length; unfold len; lia.
  - intros i j Hi Hj. unfold cols.
    rewrite (nth_indep _ [] (slice (Some a) (Some b) []))
      by (rewrite length_map, slice_window_length by lia; exact Hi).
    rewrite (map_nth (slice (Some a) (Some b))).
    assert (Ha' : 0 <= a <= len sl) by lia.
    assert (Hb' : 0 <= b <= len sl) by lia.
    rewrite (@slice_window_nth _ sl a b i [] Ha' Hb' Hi).
    assert (Hrow : length (nth (Z.to_nat a + i) sl []) = n).
    { rewrite Forall_forall in Hrows. apply Hrows. apply nth_In. lia. }
    apply slice_window_nth; unfold len; lia.
Qed.
End Windows.



(** * The stored stack *)

Section Frames.
Variables (S F : Type) (field : S -> F).

Lemma keeps_ret {A} (a : A) : keeps field (ret a).
Proof. intros s. reflexivity. Qed.

Lemma keeps_lift {A} (o : outcome A) : keeps field (lift o).
Proof. intros s. reflexivity. Qed.

Lemma keeps_read {A} (f : S -> A) : keeps field (read f).
Proof. intros s. reflexivity. Qed.

Lemma keeps_assert (b : bool) : keeps field (assert b).
Proof. intros s. reflexivity. Qed.

Lemma keeps_write (f : S -> S) :
  (forall s, field (f s) = field s) -> keeps field (write f).
Proof. intros H s. apply H. Qed.

Lemma keeps_at_bind {A B} (m : M S A) (k : A -> M S B) (s : S) :
  keeps_at field m s ->
  (forall a, outcome_of (m s) = Return a -> keeps_at field (k a) (state_after (m s))) ->
  keeps_at field (bind m k) s.
Proof.
  unfold keeps_at, bind, state_after, outcome_of. intros Hm Hk.
  destruct (m s) as [s' [a|e]]; simpl in *.
  - rewrite (Hk a eq_refl). exact Hm.
  - exact Hm.
Qed.

Lemma keeps_bind {A B} (m : M S A) (k : A -> M S B) :
  keeps field m -> (forall a, keeps field (k a)) -> keeps field (bind m k).
Proof.
  intros Hm Hk s. apply keeps_at_bind; [apply Hm|]. intros a _. apply Hk.
Qed.

Lemma keeps_for_each {A} (l : list A) (body : A -> M S unit) :
  (forall x, keeps field (body x)) -> keeps field (for_each l body).
Proof.
  intros H. induction l as [|x l IH]; simpl.
  - apply keeps_ret.
  - apply keeps_bind; [apply H|]. intros _. exact IH.
Qed.
End Frames.

(** Walk through a method built from the combinators. *)
Ltac keep_field :=
  cbv zeta;
  repeat first
    [ apply keeps_ret
    | apply keeps_lift
    | apply keeps_read
    | apply keeps_assert
    | apply keeps_write; intros; reflexivity
    | apply keeps_for_each; intros
    | apply keeps_bind; [|intros]
    | match goal with
      | |- keeps _ (if ?b then _ else _) => destruct b
      | |- keeps _ (match ?x with _ => _ end) => destruct x
      end ].

Section StackKept.
Context {E : Externals}.

Lemma set_angles_keeps (n r p : Z) :
  keeps LoadScan.im_stack (LoadScan.set_angles n r p).
Proof. unfold LoadScan.set_angles. keep_field. Qed.

Lemma auto_set_angles_keeps (est p : Z) :
  keeps LoadScan.im_stack (LoadScan.auto_set_angles est p).
Proof. unfold LoadScan.auto_set_angles. keep_field. Qed.

Lemma manual_set_angles_keeps (p : Z) :
  keeps LoadScan.im_stack (LoadScan.manual_set_angles p).
Proof. unfold LoadScan.manual_set_angles. keep_field. Qed.

Lemma set_centre_keeps (cor : Z) : keeps LoadScan.im_stack (LoadScan.set_centre cor).
Proof. unfold LoadScan.set_centre. keep_field. Qed.

Lemma auto_centre_keeps (window dy : Z) :
  keeps LoadScan.im_stack (LoadScan.auto_centre window dy).
Proof. unfold LoadScan.auto_centre. keep_field. Qed.

Lemma set_crop_keeps (width top bottom : Z) :
  keeps LoadScan.im_stack (LoadScan.set_crop width top bottom).
Proof. unfold LoadScan.set_crop. keep_field. Qed.

(** Averaging and cropping hand the slice loop an array of its own. *)
Lemma preprocess_own (downsample : Z * Z) (crop_flag average : bool)
      (s : LoadScan.LoadProjections) (images : LoadScan.ndarray) :
  LoadScan.preprocess downsample crop_flag average s = Return images ->
  crop_flag = true \/ average = true ->
  exists a, images = LoadScan.Own a.
Proof.
  unfold LoadScan.preprocess, LoadScan.select_frames. intros H Hc.
  destruct (not_none (LoadScan.num_images s)) as [n|e]; simpl in H; [|discriminate].
  destruct average.
  - destruct (n =? 0); simpl in H; [discriminate|].
    match type of H with
    | context [if ?c then _ else _] => destruct c
    end; simpl in H; [|discriminate].
    destruct crop_flag.
    + destruct (LoadScan.crop s) as [[[c1 c2] c3] c4].
      injection H as <-. eexists. reflexivity.
    + injection H as <-. eexists. reflexivity.
  - destruct Hc as [-> | Hc]; [|discriminate].
    simpl in H. destruct (LoadScan.crop s) as [[[c1 c2] c3] c4].
    injection H as <-. eexists. reflexivity.
Qed.

Lemma median_pass_own_keeps (kernel : Z) (a : list (list (list Q))) :
  keeps LoadScan.im_stack (LoadScan.median_pass kernel (LoadScan.Own a)).
Proof. unfold LoadScan.median_pass. keep_field. Qed.

Lemma reconstruct_keeps (downsample : Z * Z) (crop_flag median_flag : bool) (kernel : Z)
      (recon_alg : LoadScan.algorithm) (sart_iters : Z) (threshold : Q)
      (crop_circle average : bool) :
  crop_flag = true \/ median_flag = false \/ average = true ->
  keeps LoadScan.im_stack
        (LoadScan.reconstruct downsample crop_flag median_flag kernel recon_alg
                              sart_iters threshold crop_circle average).
Proof.
  intros Hc s. unfold LoadScan.reconstruct.
  apply keeps_at_bind; [reflexivity|]. intros s0 Hs0.
  injection Hs0 as <-.
  apply keeps_at_bind; [reflexivity|]. intros images Him.
  unfold outcome_of, lift in Him. simpl in Him.
  assert (Hown : median_flag = true -> exists a, images = LoadScan.Own a).
  { intros Hm. apply (@preprocess_own downsample crop_flag average s images Him).
    destruct Hc as [Hc|[Hc|Hc]]; [left; exact Hc|congruence|right; exact Hc]. }
  generalize (state_after (lift (LoadScan.preprocess downsample crop_flag average s)
                                (state_after (read (fun s1 => s1) s)))).
  change (keeps LoadScan.im_stack
    (bind (write (LoadScan.set_recon_data
                   (Some (repeat (LoadScan.zeros (snd (fst (LoadScan.shape images)))
                                                 (snd (fst (LoadScan.shape images))))
                                 (fst (fst (LoadScan.shape images)))))))
          (fun _ =>
           bind (if median_flag then LoadScan.median_pass kernel images else ret images)
                (fun images0 =>
                 bind (for_each (seq 0 (fst (fst (LoadScan.shape images))))
                         (fun j =>
                          bind (read (fun s1 => s1))
                               (fun s1 =>
                                bind (lift (LoadScan.reconstruct_slice recon_alg sart_iters
                                              threshold s1
                                              (LoadScan.sinogram
                                                 (LoadScan.contents (LoadScan.im_stack s1)
                                                                    images0)
                                                 j (snd (fst (LoadScan.shape images))))))
                                     (fun image_tmp =>
                                      write (LoadScan.store_slice j image_tmp)))))
                      (fun _ =>
                       if crop_circle
                       then write (fun s1 =>
                              LoadScan.set_recon_data
                                (option_map
                                   (LoadScan.crop_to_circle
                                      (Z.of_nat (snd (fst (LoadScan.shape images)))))
                                   (LoadScan.recon_data s1)) s1)
                       else ret tt))))).
  apply keeps_bind; [apply keeps_write; intros; reflexivity|]. intros _.
  apply keeps_bind.
  - destruct median_flag; [|apply keeps_ret].
    destruct (Hown eq_refl) as [a ->]. apply median_pass_own_keeps.
  - intros images0. keep_field.
Qed.

Lemma tomo_auto_set_angles_keeps (order p : Z) :
  keeps TomoScan.im_stack (TomoScan.auto_set_angles order p).
Proof. unfold TomoScan.auto_set_angles. keep_field. Qed.

Lemma tomo_auto_centre_keeps (window : Z) :
  keeps TomoScan.im_stack (TomoScan.auto_centre window).
Proof. unfold TomoScan.auto_centre. keep_field. Qed.

Lemma tomo_interactive_keeps (p : Z) (n r : option Z) :
  keeps TomoScan.im_stack (TomoScan.manual_set_angles true p n r).
Proof. unfold TomoScan.manual_set_angles. keep_field. Qed.

(** The numeric branch of [manual_set_angles] in [tomo_scan.py] cuts the
    stored stack down to its first [num_images] frames. *)
Lemma tomo_manual_truncates (ts : TomoScan.TomoScan) (p : Z) (n r : option Z) :
  (outcome_of (TomoScan.manual_set_angles false p n r ts) = Return tt ->
   exists n', n = Some n' /\
              TomoScan.im_stack (state_after (TomoScan.manual_set_angles false p n r ts))
              = slice None (Some n') (TomoScan.im_stack ts)) /\
  (forall e, outcome_of (TomoScan.manual_set_angles false p n r ts) = Raise e ->
             TomoScan.im_stack (state_after (TomoScan.manual_set_angles false p n r ts))
             = TomoScan.im_stack ts).
Proof.
  unfold TomoScan.manual_set_angles, bind, write, assert, lift, state_after, outcome_of.
  simpl.
  destruct (match r with Some r0 => (r0 =? 180) || (r0 =? 360) | None => false end);
    simpl; [|split; [discriminate|reflexivity]].
  destruct n as [n'|]; simpl; [|split; [discriminate|reflexivity]].
  destruct (linspace _ n') as [a|e]; simpl; [|split; [discriminate|reflexivity]].
  split; [|discriminate]. intros _. exists n'. split; reflexivity.
Qed.
End StackKept.

(** C9 (as amended).  In [load_scan.py] the stored stack is the same
    after [set_angles], [auto_set_angles], [manual_set_angles],
    [set_centre], [auto_centre] and [set_crop] as before, whatever their
    outcome, and the same after [reconstruct] called with [crop=True],
    with [median_filter=False] or with [average=True].  In [tomo_scan.py]
    [auto_set_angles], [auto_centre] and the interactive
    [manual_set_angles] leave it alone too, while a successful numeric
    [manual_set_angles] replaces it by its first [num_images] frames. *)
Theorem stack_kept_except_truncation (E : Externals) :
  (forall n r p, keeps LoadScan.im_stack (LoadScan.set_angles n r p)) /\
  (forall est p, keeps LoadScan.im_stack (LoadScan.auto_set_angles est p)) /\
  (forall p, keeps LoadScan.im_stack (LoadScan.manual_set_angles p)) /\
  (forall cor, keeps LoadScan.im_stack (LoadScan.set_centre cor)) /\
  (forall window dy, keeps LoadScan.im_stack (LoadScan.auto_centre window dy)) /\
  (forall width top bottom, keeps LoadScan.im_stack (LoadScan.set_crop width top bottom)) /\
  (forall downsample crop_flag median_flag kernel recon_alg sart_iters threshold
          crop_circle average,
      crop_flag = true \/ median_flag = false \/ average = true ->
      keeps LoadScan.im_stack
            (LoadScan.reconstruct downsample crop_flag median_flag kernel recon_alg
                                  sart_iters threshold crop_circle average)) /\
  (forall order p, keeps TomoScan.im_stack (TomoScan.auto_set_angles order p)) /\
  (forall window, keeps TomoScan.im_stack (TomoScan.auto_centre window)) /\
  (forall p n r, keeps TomoScan.im_stack (TomoScan.manual_set_angles true p n r)) /\
  (forall ts p n r,
      outcome_of (TomoScan.manual_set_angles false p n r ts) = Return tt ->
      exists n', n = Some n' /\
                 TomoScan.im_stack (state_after (TomoScan.manual_set_angles false p n r ts))
                 = slice None (Some n') (TomoScan.im_stack ts)) /\
  (forall ts p n r e,
      outcome_of (TomoScan.manual_set_angles false p n r ts) = Raise e ->
      TomoScan.im_stack (state_after (TomoScan.manual_set_angles false p n r ts))
      = TomoScan.im_stack ts).
Proof.
  split; [intros n r p; apply set_angles_keeps|].
  split; [intros est p; apply auto_set_angles_keeps|].
  split; [intros p; apply manual_set_angles_keeps|].
  split; [intros cor; apply set_centre_keeps|].
  split; [intros window dy; apply auto_centre_keeps|].
  split; [intros width top bottom; apply set_crop_keeps|].
  split; [intros; apply reconstruct_keeps; assumption|].
  split; [intros order p; apply tomo_auto_set_angles_keeps|].
  split; [intros window; apply tomo_auto_centre_keeps|].
  split; [intros p n r; apply tomo_interactive_keeps|].
  split.
  - intros ts p n r. apply (proj1 (tomo_manual_truncates ts p n r)).
  - intros ts p n r. apply (proj2 (tomo_manual_truncates ts p n r)).
Qed.

Lemma stack_kept_except_truncation_witness :
  LoadScan.im_stack
    (state_after (LoadScan.reconstruct (E := Samples.blanking) (1, 1) true true 9
                    LoadScan.Fbp 1 (1 # 2) false false Samples.ramp_scan))
  = LoadScan.im_stack Samples.ramp_scan /\
  exists n', Some 1 = Some n' /\
    TomoScan.im_stack
      (state_after (TomoScan.manual_set_angles (E := Samples.stand_ins) false 5 (Some 1)
                      (Some 360) (TomoScan.init Samples.mirrored)))
    = slice None (Some n') (TomoScan.im_stack (TomoScan.init Samples.mirrored)).
Proof.
  destruct (stack_kept_except_truncation Samples.blanking)
    as [_ [_ [_ [_ [_ [_ [Hrec _]]]]]]].
  destruct (stack_kept_except_truncation Samples.stand_ins)
    as [_ [_ [_ [_ [_ [_ [_ [_ [_ [_ [Hcut _]]]]]]]]]]].
  split.
  - apply Hrec. left. reflexivity.
  - apply Hcut. reflexivity.
Defined.

(** C9 fails as stated: in [tomo_scan.py] the numeric
    [manual_set_angles] with [num_images = 1] leaves one of the two
    acquired frames in the stored stack. *)
Lemma stack_truncated_counterexample :
  outcome_of (TomoScan.manual_set_angles (E := Samples.stand_ins) false 5 (Some 1) (Some 360)
                (TomoScan.init Samples.mirrored)) = Return tt /\
  TomoScan.im_stack (TomoScan.init Samples.mirrored)
  = [[[9; 1; 2; 9]]; [[0; 2; 1; 5]]]%Q /\
  TomoScan.im_stack
    (state_after (TomoScan.manual_set_angles (E := Samples.stand_ins) false 5 (Some 1)
                    (Some 360) (TomoScan.init Samples.mirrored)))
  = [[[9; 1; 2; 9]]]%Q /\
  TomoScan.im_stack
    (state_after (TomoScan.manual_set_angles (E := Samples.stand_ins) false 5 (Some 1)
                    (Some 360) (TomoScan.init Samples.mirrored)))
  <> TomoScan.im_stack (TomoScan.init Samples.mirrored).
Proof.
  repeat split. discriminate.
Qed.

(** Outside the cases above the images of [reconstruct] are a view of the
    stored stack and the median pass writes through it: with no crop, no
    averaging and a blanking median filter the two reconstructed frames
    of the sample are blanked in the stored stack itself. *)
Lemma reconstruct_median_writes_through :
  LoadScan.im_stack
    (state_after (LoadScan.reconstruct (E := Samples.blanking) (1, 1) false true 9
                    LoadScan.Fbp 1 (1 # 2) false false
                    (LoadScan.set_num_images (Some 2)
                       (LoadScan.init [[[5]]; [[6]]; [[7]]; [[8]]]%Q))))
  = [[[0]]; [[0]]; [[7]]; [[8]]]%Q.
Proof. reflexivity. Qed.

(** * Downsampling *)

(** C10.  With [crop=False], [reconstruct] does the same whatever the
    [downsample] argument and whatever the block-mean primitive computes:
    the images handed to the slice loop are the frames chosen after the
    centre offset, and without averaging they are a view of every row,
    the columns kept by the offset and the frames [p0 : num_images + p0]
    of the stored stack. *)
Theorem reconstruct_uncropped_ignores_downsample
  (E : Externals) (other : list (list Q) -> Z * Z -> list (list Q)) (d1 d2 : Z * Z)
  (median_flag : bool) (kernel : Z) (recon_alg : LoadScan.algorithm) (sart_iters : Z)
  (threshold : Q) (crop_circle average : bool) (st : LoadScan.LoadProjections) :
  LoadScan.reconstruct (E := E) d1 false median_flag kernel recon_alg sart_iters threshold
                       crop_circle average st
  = LoadScan.reconstruct (E := with_downscale E other) d2 false median_flag kernel recon_alg
                         sart_iters threshold crop_circle average st /\
  LoadScan.preprocess (E := E) d1 false average st = LoadScan.select_frames average st /\
  LoadScan.preprocess (E := E) d1 false false st
  = obind (not_none (LoadScan.num_images st)) (fun n =>
      Return (LoadScan.View
                (seq 0 (length (hd [] (LoadScan.im_stack st))))
                (if 0 <=? LoadScan.cor_offset st
                 then slice (Some (LoadScan.cor_offset st)) None
                            (seq 0 (length (hd [] (hd [] (LoadScan.im_stack st)))))
                 else slice None (Some (LoadScan.cor_offset st))
                            (seq 0 (length (hd [] (hd [] (LoadScan.im_stack st))))))
                (slice (Some (LoadScan.p0 st)) (Some (n + LoadScan.p0 st))
                       (seq 0 (length (LoadScan.im_stack st)))))).
Proof.
  assert (Hpre : forall (E' : Externals) d avg,
             LoadScan.preprocess (E := E') d false avg st = LoadScan.select_frames avg st).
  { intros E' d avg. unfold LoadScan.preprocess.
    destruct (LoadScan.select_frames avg st); reflexivity. }
  split; [|split].
  - unfold LoadScan.reconstruct, bind, read, lift. simpl.
    rewrite !Hpre. reflexivity.
  - apply Hpre.
  - rewrite Hpre. unfold LoadScan.select_frames.
    destruct (not_none (LoadScan.num_images st)) as [n|e]; simpl; [|reflexivity].
    destruct (0 <=? LoadScan.cor_offset st); reflexivity.
Qed.

(** What does hold of the averaging: with a reference index inside the
    stack and a positive [num_images] it raises nothing, drops the frames
    after the last complete group and returns [num_images] frames. *)
Lemma select_frames_average_total (st : LoadScan.LoadProjections) (n : Z) :
  LoadScan.num_images st = Some n -> 1 <= n ->
  0 <= LoadScan.p0 st <= len (LoadScan.im_stack st) ->
  exists a, LoadScan.select_frames true st = Return (LoadScan.Own a) /\ len a = n.
Proof.
  intros Hn Hpos Hp. unfold LoadScan.select_frames. rewrite Hn. simpl.
  destruct (n =? 0) eqn:Hz; [apply Z.eqb_eq in Hz; lia|].
  set (images := if 0 <=? LoadScan.cor_offset st then _ else _).
  assert (Hview : exists cs, images = LoadScan.View
                                         (seq 0 (length (hd [] (LoadScan.im_stack st)))) cs
                                         (seq 0 (length (LoadScan.im_stack st)))).
  { unfold images. destruct (0 <=? LoadScan.cor_offset st); eexists; reflexivity. }
  destruct Hview as [cs ->]. simpl LoadScan.shape. simpl snd. simpl fst.
  set (N := Z.of_nat (length (seq 0 (length (LoadScan.im_stack st))))).
  assert (HN : N = len (LoadScan.im_stack st)) by (unfold N, len; rewrite length_seq; reflexivity).
  set (rots := (N - LoadScan.p0 st) / n).
  assert (Hr0 : 0 <= rots) by (apply Z.div_pos; lia).
  assert (Hr1 : rots * n <= N - LoadScan.p0 st).
  { rewrite Z.mul_comm. apply Z.mul_div_le. lia. }
  assert (Hlen : len (LoadScan.contents (LoadScan.im_stack st)
                        (LoadScan.slice_frames (Some (LoadScan.p0 st))
                           (Some (rots * n + LoadScan.p0 st))
                           (LoadScan.View (seq 0 (length (hd [] (LoadScan.im_stack st)))) cs
                                          (seq 0 (length (LoadScan.im_stack st))))))
                 = n * rots).
  { simpl. unfold LoadScan.gather, len. rewrite length_map.
    rewrite slice_window_length; unfold len; rewrite ?length_seq; unfold len in HN; lia. }
  rewrite Hlen.
  destruct (0 <=? n) eqn:H1; [|apply Z.leb_gt in H1; lia].
  destruct (0 <=? rots) eqn:H2; [|apply Z.leb_gt in H2; lia].
  rewrite Z.eqb_refl. simpl.
  eexists. split; [reflexivity|].
  unfold LoadScan.mean_of_groups, len. rewrite length_map, length_seq. lia.
Qed.

(** * Further properties of the calibration and reconstruction code *)

(** ** Crop bounds and the choice of frames *)

Section SlicesOfRanges.

Lemma firstn_seq_min (n a m : nat) : firstn n (seq a m) = seq a (Nat.min n m).
Proof.
  revert a m. induction n as [|n IH]; intros a [|m]; simpl; try reflexivity.
  rewrite IH. reflexivity.
Qed.

Lemma slice_seq_from (n : nat) (a : Z) :
  0 <= a <= Z.of_nat n ->
  slice (Some a) None (seq 0 n) = seq (Z.to_nat a) (n - Z.to_nat a).
Proof.
  intros H. rewrite slice_from by (unfold len; rewrite length_seq; lia).
  rewrite skipn_seq. reflexivity.
Qed.

Lemma slice_seq_drop_last (n : nat) (c : Z) :
  c < 0 -> - Z.of_nat n <= c ->
  slice None (Some c) (seq 0 n) = seq 0 (n - Z.to_nat (- c)).
Proof.
  intros Hc Hn. unfold slice, bound, len. rewrite length_seq.
  destruct (c <? 0) eqn:E; [|apply Z.ltb_ge in E; lia].
  simpl skipn. rewrite firstn_seq_min. f_equal. lia.
Qed.

Lemma slice_seq_window (n : nat) (a b : Z) :
  0 <= a -> a <= b -> b <= Z.of_nat n ->
  slice (Some a) (Some b) (seq 0 n) = seq (Z.to_nat a) (Z.to_nat (b - a)).
Proof.
  intros Ha Hab Hb.
  rewrite slice_window by (unfold len; rewrite length_seq; lia).
  rewrite skipn_seq, firstn_seq_min. simpl. f_equal. lia.
Qed.

(** A bound of 0 is stored as [None] by [set_crop]; the other bounds
    cut [a] positions at the start and [b] at the end. *)
Lemma slice_seq_trim (n : nat) (a b : Z) :
  0 <= a -> 0 <= b -> a + b <= Z.of_nat n ->
  slice (if a =? 0 then None else Some a) (if - b =? 0 then None else Some (- b)) (seq 0 n)
  = seq (Z.to_nat a) (n - Z.to_nat a - Z.to_nat b).
Proof.
  intros Ha Hb Hab. unfold slice, bound, len. rewrite length_seq.
  assert (Hstart : match (if a =? 0 then None else Some a) with
                   | Some i => if i <? 0 then Z.max 0 (Z.of_nat n + i) else Z.min i (Z.of_nat n)
                   | None => 0
                   end = a).
  { destruct (a =? 0) eqn:E; [apply Z.eqb_eq in E; lia|].
    destruct (a <? 0) eqn:E2; [apply Z.ltb_lt in E2; lia|]. lia. }
  assert (Hstop : match (if - b =? 0 then None else Some (- b)) with
                  | Some j => if j <? 0 then Z.max 0 (Z.of_nat n + j) else Z.min j (Z.of_nat n)
                  | None => Z.of_nat n
                  end = Z.of_nat n - b).
  { destruct (- b =? 0) eqn:E; [apply Z.eqb_eq in E; lia|].
    apply Z.eqb_neq in E.
    destruct (- b <? 0) eqn:E2; [lia|apply Z.ltb_ge in E2; lia]. }
  rewrite Hstart, Hstop. rewrite skipn_seq, firstn_seq_min. simpl. f_equal. lia.
Qed.
End SlicesOfRanges.

(** X1.  After [set_crop(width, top, bottom)] with bounds that fit, the
    crop applied by [reconstruct] keeps the rows [top .. h - bottom - 1]
    and the columns [width .. w - width - 1] of a view of [h] rows and [w]
    columns: [width] columns go on either side, [top] rows above and
    [bottom] rows below, and a bound of 0 cuts nothing. *)
Theorem set_crop_trims
  (st : LoadScan.LoadProjections) (width top bottom : Z) (h w : nat) (fs : list nat) :
  0 <= width -> 2 * width <= Z.of_nat w ->
  0 <= top -> 0 <= bottom -> top + bottom <= Z.of_nat h ->
  let '(c_left, c_right, c_top, c_bottom) :=
      LoadScan.crop (state_after (LoadScan.set_crop width top bottom st)) in
  LoadScan.slice_cols c_left c_right
    (LoadScan.slice_rows c_top c_bottom (LoadScan.View (seq 0 h) (seq 0 w) fs))
  = LoadScan.View (seq (Z.to_nat top) (h - Z.to_nat top - Z.to_nat bottom))
                  (seq (Z.to_nat width) (w - Z.to_nat width - Z.to_nat width)) fs.
Proof.
  intros Hw Hw2 Ht Hb Htb. simpl.
  rewrite !slice_seq_trim by lia. reflexivity.
Qed.

Lemma set_crop_trims_witness :
  let '(c_left, c_right, c_top, c_bottom) :=
      LoadScan.crop (state_after (LoadScan.set_crop 1 0 2 (LoadScan.init Samples.still))) in
  LoadScan.slice_cols c_left c_right
    (LoadScan.slice_rows c_top c_bottom (LoadScan.View (seq 0 5) (seq 0 4) [0; 1]%nat))
  = LoadScan.View (seq (Z.to_nat 0) (5 - Z.to_nat 0 - Z.to_nat 2))
                  (seq (Z.to_nat 1) (4 - Z.to_nat 1 - Z.to_nat 1)) [0; 1]%nat.
Proof.
  apply (@set_crop_trims (LoadScan.init Samples.still) 1 0 2 5 4 [0; 1]%nat); lia.
Defined.

(** X2.  Without averaging, [reconstruct] works on a view of the stored
    stack: every row; with [cor_offset >= 0] the columns from
    [cor_offset] on, with [cor_offset < 0] all but the last
    [-cor_offset] columns; and the frames [p0 .. p0 + num_images - 1],
    when these lie inside the stack. *)
Theorem select_frames_window (st : LoadScan.LoadProjections) (n : Z) :
  LoadScan.num_images st = Some n ->
  0 <= LoadScan.p0 st -> 0 <= n ->
  LoadScan.p0 st + n <= len (LoadScan.im_stack st) ->
  Z.abs (LoadScan.cor_offset st) <= len (hd [] (hd [] (LoadScan.im_stack st))) ->
  LoadScan.select_frames false st =
  Return (LoadScan.View
            (seq 0 (length (hd [] (LoadScan.im_stack st))))
            (if 0 <=? LoadScan.cor_offset st
             then seq (Z.to_nat (LoadScan.cor_offset st))
                      (length (hd [] (hd [] (LoadScan.im_stack st)))
                       - Z.to_nat (LoadScan.cor_offset st))
             else seq 0 (length (hd [] (hd [] (LoadScan.im_stack st)))
                         - Z.to_nat (- LoadScan.cor_offset st)))
            (seq (Z.to_nat (LoadScan.p0 st)) (Z.to_nat n))).
Proof.
  intros Hn Hp Hn0 Hin Hcor. unfold LoadScan.select_frames. rewrite Hn. simpl.
  unfold len in Hin, Hcor.
  destruct (0 <=? LoadScan.cor_offset st) eqn:Ec.
  - apply Z.leb_le in Ec. simpl.
    rewrite slice_seq_from by lia.
    rewrite slice_seq_window by lia.
    do 3 f_equal. lia.
  - apply Z.leb_gt in Ec. simpl.
    rewrite slice_seq_drop_last by lia.
    rewrite slice_seq_window by lia.
    do 3 f_equal. lia.
Qed.

Lemma select_frames_window_witness :
  LoadScan.select_frames false
    (LoadScan.set_cor_offset (-1) Samples.mirrored_scan) =
  Return (LoadScan.View (seq 0 1) (seq 0 3) (seq 0 2)).
Proof.
  apply (@select_frames_window (LoadScan.set_cor_offset (-1) Samples.mirrored_scan) 2).
  - reflexivity.
  - simpl. lia.
  - lia.
  - vm_compute. discriminate.
  - vm_compute. discriminate.
Defined.

(** ** Automatic angle calibration: what it returns and how it fails *)

(** Every relative minimum lies strictly inside the curve. *)
Lemma argrelmin_inside (d : list sd) (order : Z) (l : list nat) (m : nat) :
  argrelmin d order = Return l -> In m l -> (1 <= m /\ m + 2 <= length d)%nat.
Proof.
  unfold argrelmin. destruct (order <? 1) eqn:Ho; [discriminate|].
  apply Z.ltb_ge in Ho. intros H Hin. injection H as <-.
  apply filter_In in Hin. destruct Hin as [Hseq Hq].
  apply in_seq in Hseq.
  assert (m <> 0%nat).
  { intros ->. rewrite qualifies_first in Hq by exact Ho. discriminate. }
  assert (Z.of_nat m <> len d - 1).
  { intros Hm. rewrite (@qualifies_last order d m Ho Hm) in Hq. discriminate. }
  unfold len in *. lia.
Qed.

(** X3.  A successful [auto_set_angles] with [p0 >= 0] reports at least 2
    images and fewer than there are frames from [p0] on, so the frames
    [p0 .. p0 + num_images - 1] that [reconstruct] selects afterwards all
    exist: it works on exactly [num_images] frames. *)
Theorem auto_set_angles_frames_inside (st : LoadScan.LoadProjections) (est p : Z) :
  0 <= p ->
  outcome_of (LoadScan.auto_set_angles est p st) = Return tt ->
  exists n,
    LoadScan.num_images (state_after (LoadScan.auto_set_angles est p st)) = Some n /\
    LoadScan.p0 (state_after (LoadScan.auto_set_angles est p st)) = p /\
    2 <= n /\ p + n < len (LoadScan.im_stack st) /\
    exists rs cs,
      LoadScan.select_frames false (state_after (LoadScan.auto_set_angles est p st))
      = Return (LoadScan.View rs cs (seq (Z.to_nat p) (Z.to_nat n))).
Proof.
  intros Hp.
  unfold LoadScan.auto_set_angles, bind, write, read, lift, state_after, outcome_of.
  simpl.
  destruct (len (LoadScan.im_stack st) - p <? 0) eqn:Hroom; [discriminate|].
  apply Z.ltb_ge in Hroom.
  destruct (get (LoadScan.im_stack st) p) as [ref|e]; [|discriminate].
  destruct (argrelmin _ _) as [minimas|e] eqn:Hmin; [|discriminate].
  destruct minimas as [|m0 rest]; [discriminate|].
  destruct (argrelmin_inside _ _ m0 Hmin (or_introl eq_refl)) as [Hlo Hhi].
  assert (Hlen := @difference_curve_length (LoadScan.im_stack st) p ref ltac:(lia)).
  unfold len in Hlen, Hroom.
  unfold get at 1. simpl.
  rewrite linspace_int_Return by lia. simpl. intros _.
  exists (Z.of_nat m0 + 1). split; [reflexivity|]. split; [reflexivity|].
  split; [lia|]. split; [unfold len; lia|].
  unfold LoadScan.select_frames. simpl.
  destruct (0 <=? LoadScan.cor_offset st); simpl;
    rewrite slice_seq_window by lia;
    replace (Z.of_nat m0 + 1 + p - p) with (Z.of_nat m0 + 1) by lia;
    eexists; eexists; reflexivity.
Qed.

Lemma auto_set_angles_frames_inside_witness :
  exists n,
    LoadScan.num_images
      (state_after (LoadScan.auto_set_angles 4 0 (LoadScan.init Samples.period3))) = Some n /\
    LoadScan.p0
      (state_after (LoadScan.auto_set_angles 4 0 (LoadScan.init Samples.period3))) = 0 /\
    2 <= n /\ 0 + n < len (LoadScan.im_stack (LoadScan.init Samples.period3)) /\
    exists rs cs,
      LoadScan.select_frames false
        (state_after (LoadScan.auto_set_angles 4 0 (LoadScan.init Samples.period3)))
      = Return (LoadScan.View rs cs (seq (Z.to_nat 0) (Z.to_nat n))).
Proof.
  apply (@auto_set_angles_frames_inside (LoadScan.init Samples.period3) 4 0).
  - lia.
  - vm_compute. reflexivity.
Defined.



(** ** Manual angle calibration: the count of images *)

(** X5.  With a valid range, [set_angles] accepts a count of 0 and
    stores an empty angle list with [num_images = 0], while a negative
    count fails with [ValueError] after [p0] has been set.  A stack
    calibrated to 0 images makes [reconstruct] with [average=True] fail
    with [ZeroDivisionError], leaving every field as it was. *)
Theorem set_angles_counts
  (E : Externals) (st : LoadScan.LoadProjections) (n r p : Z) :
  r = 180 \/ r = 360 ->
  (n < 0 ->
   LoadScan.set_angles n r p st = (LoadScan.set_p0 p st, Raise ValueError)) /\
  (n = 0 ->
   LoadScan.set_angles n r p st
   = (LoadScan.set_num_images (Some 0)
        (LoadScan.set_angles_field (Some []) (LoadScan.set_p0 p st)), Return tt) /\
   forall downsample crop_flag median_flag kernel recon_alg sart_iters threshold crop_circle,
     LoadScan.reconstruct downsample crop_flag median_flag kernel recon_alg sart_iters
                          threshold crop_circle true
                          (state_after (LoadScan.set_angles n r p st))
     = (state_after (LoadScan.set_angles n r p st), Raise ZeroDivisionError)).
Proof.
  intros Hr.
  assert (Hc : (r =? 180) || (r =? 360) = true).
  { destruct Hr as [-> | ->]; reflexivity. }
  split.
  - intros Hn. unfold LoadScan.set_angles, bind, write, assert, lift. simpl.
    rewrite Hc. simpl. rewrite linspace_Raise by exact Hn. reflexivity.
  - intros ->.
    assert (Hrun : LoadScan.set_angles 0 r p st
                   = (LoadScan.set_num_images (Some 0)
                        (LoadScan.set_angles_field (Some []) (LoadScan.set_p0 p st)),
                      Return tt)).
    { unfold LoadScan.set_angles, bind, write, assert, lift. simpl.
      rewrite Hc. reflexivity. }
    split; [exact Hrun|]. intros. rewrite Hrun. reflexivity.
Qed.

Lemma set_angles_counts_witness :
  LoadScan.set_angles (-3) 360 5 (LoadScan.init Samples.still)
  = (LoadScan.set_p0 5 (LoadScan.init Samples.still), Raise ValueError) /\
  outcome_of (LoadScan.set_angles 0 180 5 (LoadScan.init Samples.still)) = Return tt.
Proof.
  destruct (@set_angles_counts Samples.stand_ins (LoadScan.init Samples.still) (-3) 360 5
              (or_intror eq_refl)) as [Hneg _].
  destruct (@set_angles_counts Samples.stand_ins (LoadScan.init Samples.still) 0 180 5
              (or_introl eq_refl)) as [_ Hzero].
  split.
  - apply Hneg. lia.
  - destruct (Hzero eq_refl) as [Hrun _]. rewrite Hrun. reflexivity.
Defined.

(** X6.  Before any angle calibration [num_images] is [None] and every
    call of [reconstruct] fails with [TypeError] before it touches a
    field: the stack, the calibration and [recon_data] are as before. *)
Theorem reconstruct_uncalibrated
  (E : Externals) (st : LoadScan.LoadProjections)
  (downsample : Z * Z) (crop_flag median_flag : bool) (kernel : Z)
  (recon_alg : LoadScan.algorithm) (sart_iters : Z) (threshold : Q)
  (crop_circle average : bool) :
  LoadScan.num_images st = None ->
  LoadScan.reconstruct downsample crop_flag median_flag kernel recon_alg sart_iters
                       threshold crop_circle average st
  = (st, Raise TypeError).
Proof.
  intros Hn. unfold LoadScan.reconstruct, bind, read, lift. simpl.
  unfold LoadScan.preprocess, LoadScan.select_frames. rewrite Hn. reflexivity.
Qed.

Lemma reconstruct_uncalibrated_witness :
  LoadScan.reconstruct (E := Samples.stand_ins) (4, 4) true false 9 LoadScan.Fbp 1 (1 # 2)
                       false false (LoadScan.init Samples.still)
  = (LoadScan.init Samples.still, Raise TypeError).
Proof.
  apply reconstruct_uncalibrated. reflexivity.
Defined.

(** ** Automatic centre calibration: failure, shapes, a centred sample *)

Lemma argmin_Return_bound (d : list sd) (m : nat) :
  argmin d = Return m -> (m < length d)%nat.
Proof.
  intros H. destruct d as [|x l]; [discriminate|].
  destruct (@argmin_spec (x :: l) ltac:(discriminate)) as [m' [Hm' [Hb _]]].
  rewrite H in Hm'. injection Hm' as <-. exact Hb.
Qed.

Lemma window_lookup (hw : Z) (d : list sd) (m : nat) :
  argmin d = Return m -> length d = Z.to_nat (hw - - hw) ->
  get (range (- hw) hw) (Z.of_nat m) = Return (- hw + Z.of_nat m) /\
  - hw <= - hw + Z.of_nat m < hw.
Proof.
  intros Ha Hlen. apply argmin_Return_bound in Ha.
  split; [|lia].
  rewrite (@get_in_bounds _ (range (- hw) hw) (Z.of_nat m) 0)
    by (unfold len; rewrite range_length; lia).
  rewrite Nat2Z.id. rewrite nth_range by lia. reflexivity.
Qed.



Lemma shifted_crop_length {A} (row : list A) (hw i : Z) :
  1 <= hw -> - hw <= i < hw ->
  len (slice (Some (hw + i)) (Some (- hw + i)) row) = Z.max 0 (len row - 2 * hw).
Proof.
  intros Hhw Hi. unfold slice, bound, len.
  destruct (hw + i <? 0) eqn:E1; [apply Z.ltb_lt in E1; lia|].
  destruct (- hw + i <? 0) eqn:E2; [|apply Z.ltb_ge in E2; lia].
  rewrite length_firstn, length_skipn. lia.
Qed.

(** X8.  In the search of [auto_centre] every crop of the flipped frame,
    whatever the shift of the window, has as many rows as the frame and
    rows exactly as wide as those of the cropped reference: the frame's
    width less the window, or nothing when the window is wider.  The
    difference to the reference is always taken over equal shapes. *)
Theorem centre_search_shapes (f0 f180 : list (list Q)) (hw i W : Z) :
  1 <= hw -> - hw <= i < hw ->
  Forall (fun row => len row = W) f0 ->
  Forall (fun row => len row = W) f180 ->
  length (cols (Some (hw + i)) (Some (- hw + i)) (fliplr f180)) = length f180 /\
  Forall (fun row => len row = Z.max 0 (W - 2 * hw))
         (cols (Some (hw + i)) (Some (- hw + i)) (fliplr f180)) /\
  Forall (fun row => len row = Z.max 0 (W - 2 * hw))
         (cols (Some hw) (Some (- hw)) f0).
Proof.
  intros Hhw Hi H0 H180. unfold cols, fliplr. split; [|split].
  - rewrite !length_map. reflexivity.
  - apply Forall_forall. intros row Hin.
    apply in_map_iff in Hin. destruct Hin as [r1 [<- Hin1]].
    apply in_map_iff in Hin1. destruct Hin1 as [r0 [<- Hin0]].
    rewrite shifted_crop_length by assumption.
    rewrite Forall_forall in H180. specialize (H180 r0 Hin0).
    unfold len in *. rewrite length_rev. lia.
  - apply Forall_forall. intros row Hin.
    apply in_map_iff in Hin. destruct Hin as [r0 [<- Hin0]].
    replace hw with (hw + 0) at 1 by lia. replace (- hw) with (- hw + 0) by lia.
    rewrite shifted_crop_length by lia.
    rewrite Forall_forall in H0. specialize (H0 r0 Hin0). lia.
Qed.

Lemma centre_search_shapes_witness :
  Forall (fun row => len row = Z.max 0 (4 - 2 * 1))
         (cols (Some (1 + -1)) (Some (- 1 + -1)) (fliplr [[0; 2; 1; 5]]%Q)) /\
  Forall (fun row => len row = Z.max 0 (4 - 2 * 1))
         (cols (Some 1) (Some (- 1)) [[9; 1; 2; 9]]%Q).
Proof.
  destruct (@centre_search_shapes [[9; 1; 2; 9]]%Q [[0; 2; 1; 5]]%Q 1 (-1) 4)
    as [_ [H1 H2]].
  - lia.
  - lia.
  - repeat constructor.
  - repeat constructor.
  - split; assumption.
Defined.

(** X9.  For a sample whose rotation axis is centred, so that the flipped
    180-degree frame matches the reference exactly at shift 0 and at no
    other shift of the window, [auto_centre] of [load_scan.py] writes
    the offset -1, and [auto_centre] of [tomo_scan.py] the offset 0. *)
Theorem auto_centre_of_centred_sample :
  (forall (E : Externals) (st : LoadScan.LoadProjections) (window dy n : Z)
          (f0 f180 : list (list Q)),
      get (LoadScan.im_stack st) (LoadScan.p0 st) = Return f0 ->
      LoadScan.num_images st = Some n ->
      get (LoadScan.im_stack st) (n / 2 + LoadScan.p0 st) = Return f180 ->
      2 <= window ->
      let hw := window / 2 in
      let ref := downscale_local_mean (cols (Some hw) (Some (- hw)) f0) (dy, 1) in
      let flipped := fliplr (downscale_local_mean f180 (dy, 1)) in
      sd_zero (shift_std hw flipped ref 0) ->
      (forall i, - hw <= i < hw -> i <> 0 -> positive (shift_std hw flipped ref i)) ->
      LoadScan.auto_centre window dy st = (LoadScan.set_cor_offset (-1) st, Return tt)) /\
  (forall (ts : TomoScan.TomoScan) (window : Z) (f0 f180 : list (list Q)),
      get (TomoScan.im_stack ts) (TomoScan.p0 ts) = Return f0 ->
      get (TomoScan.im_stack ts) (Z.quot (TomoScan.num_images ts) 2 + TomoScan.p0 ts)
      = Return f180 ->
      2 <= window ->
      let hw := window / 2 in
      let ref := cols (Some hw) (Some (- hw)) f0 in
      let flipped := fliplr f180 in
      sd_zero (shift_std hw flipped ref 0) ->
      (forall i, - hw <= i < hw -> i <> 0 -> positive (shift_std hw flipped ref i)) ->
      TomoScan.auto_centre window ts = (TomoScan.set_cor_offset 0 ts, Return tt)).
Proof.
  split.
  - intros E st window dy n f0 f180 H0 Hn H180 Hw hw ref flipped Hzero Hpos.
    assert (Hhw : 1 <= hw) by (apply Z.div_le_lower_bound; lia).
    destruct (@window_search hw flipped ref (rev (range (- hw) hw)) Hhw)
      as [m [Ha [Hg [Hm [Hle _]]]]].
    { rewrite length_rev, range_length. reflexivity. }
    assert (Hshift : nth m (rev (range (- hw) hw)) 0 = 0).
    { specialize (Hle (Z.to_nat (hw - 1)) ltac:(lia)).
      rewrite !nth_rev_range in Hle by lia.
      rewrite nth_rev_range by lia.
      replace (hw - 1 - Z.of_nat (Z.to_nat (hw - 1))) with 0 in Hle by lia.
      destruct (Z.eq_dec (hw - 1 - Z.of_nat m) 0) as [Hz|Hnz]; [exact Hz|].
      exfalso. specialize (Hpos (hw - 1 - Z.of_nat m) ltac:(lia) Hnz).
      unfold sd_le, positive, sd_zero in *. rewrite Hzero in Hle.
      exact (Qlt_not_le _ _ Hpos Hle). }
    rewrite nth_rev_range in Hshift by lia.
    unfold LoadScan.auto_centre, bind, write, read, lift. simpl.
    rewrite H0, Hn. simpl. rewrite H180.
    fold hw. fold ref. fold flipped. rewrite Ha, Hg.
    replace (- hw + Z.of_nat m) with (-1) by lia. reflexivity.
  - intros ts window f0 f180 H0 H180 Hw hw ref flipped Hzero Hpos.
    assert (Hhw : 1 <= hw) by (apply Z.div_le_lower_bound; lia).
    destruct (@window_search hw flipped ref (range (- hw) hw) Hhw)
      as [m [Ha [Hg [Hm [Hle _]]]]].
    { rewrite range_length. reflexivity. }
    assert (Hshift : nth m (range (- hw) hw) 0 = 0).
    { specialize (Hle (Z.to_nat hw) ltac:(lia)).
      rewrite !nth_range in Hle by lia.
      rewrite nth_range by lia.
      replace (- hw + Z.of_nat (Z.to_nat hw)) with 0 in Hle by lia.
      destruct (Z.eq_dec (- hw + Z.of_nat m) 0) as [Hz|Hnz]; [exact Hz|].
      exfalso. specialize (Hpos (- hw + Z.of_nat m) ltac:(lia) Hnz).
      unfold sd_le, positive, sd_zero in *. rewrite Hzero in Hle.
      exact (Qlt_not_le _ _ Hpos Hle). }
    rewrite nth_range in Hshift by lia.
    unfold TomoScan.auto_centre, bind, write, read, lift. simpl.
    rewrite H0. simpl. rewrite H180.
    fold hw. fold ref. fold flipped. rewrite Ha, Hg.
    rewrite Hshift. reflexivity.
Qed.

Lemma auto_centre_of_centred_sample_witness :
  LoadScan.auto_centre (E := Samples.stand_ins) 2 1 Samples.mirrored_scan
  = (LoadScan.set_cor_offset (-1) Samples.mirrored_scan, Return tt) /\
  TomoScan.auto_centre 2 Samples.mirrored_tomo
  = (TomoScan.set_cor_offset 0 Samples.mirrored_tomo, Return tt).
Proof.
  split.
  - apply (proj1 auto_centre_of_centred_sample Samples.stand_ins Samples.mirrored_scan 2 1 2
                 [[9; 1; 2; 9]]%Q [[0; 2; 1; 5]]%Q);
      [reflexivity | reflexivity | reflexivity | lia | vm_compute; reflexivity |].
    intros i Hi Hne. change (2 / 2) with 1 in Hi.
    assert (i = -1) as -> by lia. vm_compute. reflexivity.
  - apply (proj2 auto_centre_of_centred_sample Samples.mirrored_tomo 2
                 [[9; 1; 2; 9]]%Q [[0; 2; 1; 5]]%Q);
      [reflexivity | reflexivity | lia | vm_compute; reflexivity |].
    intros i Hi Hne. change (2 / 2) with 1 in Hi.
    assert (i = -1) as -> by lia. vm_compute. reflexivity.
Defined.

(** ** The slice loop of [reconstruct] *)

Section SliceLoop.
Context {E : Externals}.

Lemma bind_Return {S A B} (m : M S A) (k : A -> M S B) (s s' : S) (a : A) :
  m s = (s', Return a) -> bind m k s = k a s'.
Proof. intros H. unfold bind. rewrite H. reflexivity. Qed.

Lemma bind_Raise {S A B} (m : M S A) (k : A -> M S B) (s s' : S) (e : exn) :
  m s = (s', Raise e) -> bind m k s = (s', Raise e).
Proof. intros H. unfold bind. rewrite H. reflexivity. Qed.

Lemma range_snoc (a b : Z) : a <= b -> range a (b + 1) = range a b ++ [b].
Proof.
  intros H. unfold range.
  replace (Z.to_nat (b + 1 - a)) with (S (Z.to_nat (b - a))) by lia.
  rewrite seq_S, map_app. simpl. do 2 f_equal. lia.
Qed.

Lemma length_update_nth {A} (i : nat) (f : A -> A) (l : list A) :
  length (LoadScan.update_nth i f l) = length l.
Proof.
  revert i. induction l as [|x l IH]; intros [|i]; simpl; try reflexivity.
  rewrite IH. reflexivity.
Qed.

Lemma nth_update_nth_same {A} (i : nat) (f : A -> A) (l : list A) (d : A) :
  (i < length l)%nat -> nth i (LoadScan.update_nth i f l) d = f (nth i l d).
Proof.
  revert i. induction l as [|x l IH]; intros [|i] H; simpl in *; try lia.
  - reflexivity.
  - apply IH. lia.
Qed.

Lemma nth_update_nth_other {A} (i j : nat) (f : A -> A) (l : list A) (d : A) :
  i <> j -> nth j (LoadScan.update_nth i f l) d = nth j l d.
Proof.
  revert i j. induction l as [|x l IH]; intros [|i] [|j] H; simpl; try reflexivity.
  - contradiction.
  - apply IH. congruence.
Qed.

(** The loop over the rows [a .. a + m - 1], started with the volume [v]:
    when it returns, every one of these rows holds what the strategy
    returned for its sinogram, and the other fields are untouched. *)
Lemma slice_loop_stores (st : LoadScan.LoadProjections) (images : LoadScan.ndarray)
      (recon_alg : LoadScan.algorithm) (sart_iters : Z) (threshold : Q) (rw : nat) :
  forall (m a : nat) (v : list (list (list Q))),
    (a + m <= length v)%nat ->
    outcome_of
      (for_each (seq a m)
         (fun j =>
            bind (read (fun s => s))
                 (fun s =>
                    bind (lift (LoadScan.reconstruct_slice recon_alg sart_iters threshold s
                                  (LoadScan.sinogram
                                     (LoadScan.contents (LoadScan.im_stack s) images) j rw)))
                         (fun image_tmp => write (LoadScan.store_slice j image_tmp))))
         (LoadScan.set_recon_data (Some v) st)) = Return tt ->
    exists v',
      state_after
        (for_each (seq a m)
           (fun j =>
              bind (read (fun s => s))
                   (fun s =>
                      bind (lift (LoadScan.reconstruct_slice recon_alg sart_iters threshold s
                                    (LoadScan.sinogram
                                       (LoadScan.contents (LoadScan.im_stack s) images) j rw)))
                           (fun image_tmp => write (LoadScan.store_slice j image_tmp))))
           (LoadScan.set_recon_data (Some v) st))
      = LoadScan.set_recon_data (Some v') st /\
      length v' = length v /\
      (forall j, (a <= j < a + m)%nat ->
                 LoadScan.reconstruct_slice recon_alg sart_iters threshold st
                   (LoadScan.sinogram (LoadScan.contents (LoadScan.im_stack st) images) j rw)
                 = Return (nth j v' [])) /\
      (forall j, (j < a)%nat -> nth j v' [] = nth j v []).
Proof.
  induction m as [|m IH]; intros a v Hlen Hout.
  - exists v. simpl. repeat split; intros; try reflexivity. lia.
  - simpl seq in *. simpl for_each in *.
    unfold bind at 1 in Hout. unfold bind at 1.
    unfold bind at 1 in Hout. unfold bind at 1.
    unfold read at 1 in Hout. unfold read at 1.
    unfold bind at 1 in Hout. unfold bind at 1.
    unfold lift at 1 in Hout. unfold lift at 1.
    change (LoadScan.reconstruct_slice recon_alg sart_iters threshold
              (LoadScan.set_recon_data (Some v) st)
              (LoadScan.sinogram
                 (LoadScan.contents
                    (LoadScan.im_stack (LoadScan.set_recon_data (Some v) st)) images) a rw))
      with (LoadScan.reconstruct_slice recon_alg sart_iters threshold st
              (LoadScan.sinogram (LoadScan.contents (LoadScan.im_stack st) images) a rw))
      in *.
    destruct (LoadScan.reconstruct_slice recon_alg sart_iters threshold st
                (LoadScan.sinogram (LoadScan.contents (LoadScan.im_stack st) images) a rw))
      as [im|e] eqn:Hslice; [|discriminate Hout].
    unfold write at 1 in Hout. unfold write at 1.
    change (LoadScan.store_slice a im (LoadScan.set_recon_data (Some v) st))
      with (LoadScan.set_recon_data (Some (LoadScan.update_nth a (fun _ => im) v)) st) in *.
    destruct (IH (S a) (LoadScan.update_nth a (fun _ => im) v)) as [v' [Hst [Hl [Hin Hbefore]]]].
    { rewrite length_update_nth. lia. }
    { exact Hout. }
    exists v'. split; [exact Hst|]. split; [rewrite Hl; apply length_update_nth|]. split.
    + intros j Hj. destruct (Nat.eq_dec j a) as [->|Hne].
      * rewrite Hbefore by lia. rewrite nth_update_nth_same by lia. exact Hslice.
      * apply Hin. lia.
    + intros j Hj. rewrite Hbefore by lia. apply nth_update_nth_other. lia.
Qed.

(** X10.  When [reconstruct] without the median pass returns, it has
    changed [recon_data] only.  The volume holds one slice per row of the
    preprocessed images, slice [j] being exactly what the chosen strategy
    returned for the sinogram of row [j], and with [crop_circle] that
    volume is then cropped. *)
Theorem reconstruct_stores_every_slice
  (st : LoadScan.LoadProjections) (downsample : Z * Z) (crop_flag : bool) (kernel : Z)
  (recon_alg : LoadScan.algorithm) (sart_iters : Z) (threshold : Q)
  (crop_circle average : bool) (images : LoadScan.ndarray) :
  LoadScan.preprocess downsample crop_flag average st = Return images ->
  outcome_of (LoadScan.reconstruct downsample crop_flag false kernel recon_alg sart_iters
                                   threshold crop_circle average st) = Return tt ->
  exists vol,
    length vol = fst (fst (LoadScan.shape images)) /\
    (forall j, (j < fst (fst (LoadScan.shape images)))%nat ->
               LoadScan.reconstruct_slice recon_alg sart_iters threshold st
                 (LoadScan.sinogram (LoadScan.contents (LoadScan.im_stack st) images) j
                                    (snd (fst (LoadScan.shape images))))
               = Return (nth j vol [])) /\
    state_after (LoadScan.reconstruct downsample crop_flag false kernel recon_alg sart_iters
                                      threshold crop_circle average st)
    = LoadScan.set_recon_data
        (Some (if crop_circle
               then LoadScan.crop_to_circle (Z.of_nat (snd (fst (LoadScan.shape images)))) vol
               else vol)) st.
Proof.
  intros Hpre.
  unfold LoadScan.reconstruct.
  erewrite bind_Return by reflexivity.
  erewrite bind_Return by (unfold lift; rewrite Hpre; reflexivity).
  cbv zeta.
  set (rh := fst (fst (LoadScan.shape images))).
  set (rw := snd (fst (LoadScan.shape images))).
  erewrite bind_Return by reflexivity.
  erewrite bind_Return by reflexivity.
  match goal with
  | |- context [bind (for_each (seq 0 rh) ?body) _ ?s0] =>
      destruct (for_each (seq 0 rh) body s0) as [s1 [[]|e]] eqn:Hloop
  end.
  - erewrite bind_Return by exact Hloop.
    intros _.
    destruct (@slice_loop_stores st images recon_alg sart_iters threshold rw rh 0
                (repeat (LoadScan.zeros rw rw) rh)) as [v' [Hst [Hl [Hin _]]]].
    { rewrite repeat_length. lia. }
    { rewrite Hloop. reflexivity. }
    rewrite Hloop in Hst. simpl in Hst. subst s1.
    exists v'. split; [rewrite Hl; apply repeat_length|]. split.
    + intros j Hj. apply Hin. lia.
    + destruct crop_circle; reflexivity.
  - erewrite bind_Raise by exact Hloop. simpl. discriminate.
Qed.

(** X11.  The 'sart' strategy calls [iradon_sart] once without a start
    image for any [sart_iters] up to 1, zero and negative counts
    included, and each further iteration once more, started from the
    result before; an exception ends the iteration. *)
Theorem sart_iterations (sino : list (list Q)) (angs : option (list Q)) (k : Z) :
  (k <= 1 -> LoadScan.sart sino angs k = iradon_sart sino angs None) /\
  (1 <= k ->
   LoadScan.sart sino angs (k + 1)
   = obind (LoadScan.sart sino angs k) (fun im => iradon_sart sino angs (Some im))).
Proof.
  unfold LoadScan.sart. split.
  - intros H. unfold range.
    replace (Z.to_nat (k - 1 - 0)) with 0%nat by lia. reflexivity.
  - intros H. replace (k + 1 - 1) with (k - 1 + 1) by lia.
    rewrite range_snoc by lia. rewrite fold_left_app. reflexivity.
Qed.

End SliceLoop.

Lemma reconstruct_stores_every_slice_witness :
  exists vol,
    length vol = 1%nat /\
    state_after (LoadScan.reconstruct (E := Samples.stand_ins) (1, 1) false false 9
                   LoadScan.Fbp 1 (1 # 2) false false Samples.mirrored_scan)
    = LoadScan.set_recon_data (Some vol) Samples.mirrored_scan.
Proof.
  destruct (@reconstruct_stores_every_slice Samples.stand_ins
              Samples.mirrored_scan (1, 1) false 9 LoadScan.Fbp 1 (1 # 2) false false
              (LoadScan.View (seq 0 1) (seq 0 4) (seq 0 2)))
    as [vol [Hlen [_ Hst]]].
  - reflexivity.
  - reflexivity.
  - exists vol. split; [exact Hlen|exact Hst].
Defined.

Lemma sart_iterations_witness :
  LoadScan.sart (E := Samples.stand_ins) [[1%Q]] None 0
  = iradon_sart (Externals := Samples.stand_ins) [[1%Q]] None None /\
  LoadScan.sart (E := Samples.stand_ins) [[1%Q]] None (2 + 1)
  = obind (LoadScan.sart (E := Samples.stand_ins) [[1%Q]] None 2)
          (fun im => iradon_sart (Externals := Samples.stand_ins) [[1%Q]] None (Some im)).
Proof.
  split.
  - apply (proj1 (@sart_iterations Samples.stand_ins [[1%Q]] None 0)). lia.
  - apply (proj2 (@sart_iterations Samples.stand_ins [[1%Q]] None 2)). lia.
Defined.

(** ** Silhouette carving *)

Section Carving.
Context {E : Externals}.

Lemma nth_combine_seq {A} (l : list A) (a r : nat) (d : A) :
  (r < length l)%nat ->
  nth r (combine (seq a (length l)) l) (0%nat, d) = ((a + r)%nat, nth r l d).
Proof.
  revert a r. induction l as [|x l IH]; intros a r H; simpl in *; [lia|].
  destruct r as [|r].
  - f_equal. lia.
  - rewrite IH by lia. f_equal. lia.
Qed.

(** What one view does to one cell of the accumulator. *)
Lemma carve_cell (width centre : Z) (theta : Q) (view : list Q) (full : list (list Q))
      (r c : nat) :
  (r < length full)%nat -> (c < length (nth r full []))%nat ->
  nth c (nth r (LoadScan.carve width centre theta view full) []) 0%Q
  = (nth c (nth r full []) 0
     - (1 - nth (Z.to_nat (LoadScan.mapping_index width centre theta r c)) view 0))%Q.
Proof.
  intros Hr Hc. unfold LoadScan.carve.
  set (frow := fun rrow : nat * list Q =>
                 map (fun cv : nat * Q =>
                        (snd cv - (1 - nth (Z.to_nat (LoadScan.mapping_index width centre theta
                                                        (fst rrow) (fst cv))) view 0))%Q)
                     (combine (seq 0 (length (snd rrow))) (snd rrow))).
  rewrite (nth_indep (map frow _) [] (frow (0%nat, [])))
    by (rewrite length_map, length_combine, length_seq; lia).
  rewrite (map_nth frow). rewrite nth_combine_seq by exact Hr.
  unfold frow. simpl fst. simpl snd.
  set (fcell := fun cv : nat * Q =>
                  (snd cv - (1 - nth (Z.to_nat (LoadScan.mapping_index width centre theta r
                                                  (fst cv))) view 0))%Q).
  rewrite (nth_indep (map fcell _) 0%Q (fcell (0%nat, 0%Q)))
    by (rewrite length_map, length_combine, length_seq; lia).
  rewrite (map_nth fcell). rewrite nth_combine_seq by exact Hc.
  reflexivity.
Qed.

Lemma carve_square (n : nat) (width centre : Z) (theta : Q) (view : list Q)
      (full : list (list Q)) :
  square n full -> square n (LoadScan.carve width centre theta view full).
Proof.
  intros [Hlen Hrows]. unfold LoadScan.carve. split.
  - rewrite length_map, length_combine, length_seq. lia.
  - apply Forall_forall. intros row Hin.
    apply in_map_iff in Hin. destruct Hin as [[r row0] [<- Hin0]].
    apply in_combine_r in Hin0. simpl.
    rewrite length_map, length_combine, length_seq.
    rewrite Forall_forall in Hrows. rewrite (Hrows row0 Hin0). lia.
Qed.

Lemma carve_views_square (n : nat) (angs : option (list Q)) (b : list (list Q))
      (width centre : Z) (views : list Z) :
  forall full0 full,
    square n full0 ->
    LoadScan.carve_views angs b width centre views full0 = Return full ->
    square n full.
Proof.
  induction views as [|i rest IH]; intros full0 full Hsq H; simpl in H.
  - injection H as <-. exact Hsq.
  - destruct (not_none angs) as [a|e]; simpl in H; [|discriminate].
    destruct (get a i) as [theta|e]; simpl in H; [|discriminate].
    destruct (get b i) as [view|e]; simpl in H; [|discriminate].
    apply (IH _ _ (carve_square width centre theta view Hsq) H).
Qed.

Lemma ones_square (n : nat) : square n (LoadScan.ones n n).
Proof.
  unfold LoadScan.ones. split.
  - apply repeat_length.
  - apply Forall_forall. intros row Hin. apply repeat_spec in Hin. subst row.
    apply repeat_length.
Qed.

Lemma ones_cell (n r c : nat) :
  (r < n)%nat -> (c < n)%nat -> nth c (nth r (LoadScan.ones n n) []) 0%Q = 1%Q.
Proof.
  intros Hr Hc. unfold LoadScan.ones.
  rewrite (@nth_repeat_lt _ (repeat 1%Q n) n r []) by exact Hr.
  apply nth_repeat_lt. exact Hc.
Qed.

Lemma accumulator_square (n : option Z) (angs : option (list Q)) (sino : list (list Q))
      (threshold : Q) (full : list (list Q)) :
  LoadScan.accumulator n angs sino threshold = Return full ->
  square (length sino) full.
Proof.
  unfold LoadScan.accumulator. destruct (not_none n) as [k|e]; simpl; [|discriminate].
  intros H. eapply carve_views_square; [|exact H].
  unfold len. rewrite Nat2Z.id. apply ones_square.
Qed.

(** X12.  Whenever [visualhulls_recon] returns, the sinogram had at
    least one detector column, the slice is square with one row and one
    column per detector column, and every cell is either exactly 0 or
    at least 0.5: no cell is negative or strictly between 0 and 0.5. *)
Theorem visualhulls_slice_shape_and_range
  (n : option Z) (angs : option (list Q)) (sino : list (list Q)) (threshold : Q)
  (out : list (list Q)) :
  LoadScan.visualhulls_recon n angs sino threshold = Return out ->
  sino <> [] /\
  square (length sino) out /\
  Forall (Forall (fun v : Q => v = 0%Q \/ (1 # 2 <= v)%Q)) out.
Proof.
  unfold LoadScan.visualhulls_recon.
  destruct (LoadScan.accumulator n angs sino threshold) as [full|e] eqn:Hacc;
    simpl; [|discriminate].
  destruct (accumulator_square _ _ _ _ Hacc) as [Hlen Hrows].
  unfold LoadScan.bias_and_threshold, LoadScan.data_range.
  destruct (flatten full) as [|x l] eqn:Hflat; simpl; [discriminate|].
  intros H. injection H as <-. split; [|split].
  - intros ->. simpl in Hlen. apply length_zero_iff_nil in Hlen. subst full.
    discriminate Hflat.
  - split.
    + rewrite length_map. exact Hlen.
    + apply Forall_forall. intros row Hin.
      apply in_map_iff in Hin. destruct Hin as [row0 [<- Hin0]].
      rewrite length_map. rewrite Forall_forall in Hrows. apply Hrows. exact Hin0.
  - apply Forall_forall. intros row Hin.
    apply in_map_iff in Hin. destruct Hin as [row0 [<- _]].
    apply Forall_forall. intros v Hv.
    apply in_map_iff in Hv. destruct Hv as [v0 [<- _]]. cbv zeta.
    destruct (Qltb (v0 + LoadScan.floor_quarter (LoadScan.amax x l - LoadScan.amin x l))
                   (1 # 2)) eqn:Hc.
    + left. reflexivity.
    + right. apply Qltb_ge. exact Hc.
Qed.

Lemma get_Raise_IndexError {A} (l : list A) (i : Z) (e : exn) :
  get l i = Raise e -> e = IndexError.
Proof.
  unfold get. destruct ((if i <? 0 then len l + i else i) <? 0); [congruence|].
  destruct (nth_error l _); [discriminate|congruence].
Qed.

Lemma carve_views_short_angles (a : list Q) (b : list (list Q)) (width centre : Z)
      (views : list Z) :
  forall full0,
    Forall (fun i => 0 <= i) views ->
    (exists i, In i views /\ len a <= i) ->
    LoadScan.carve_views (Some a) b width centre views full0 = Raise IndexError.
Proof.
  induction views as [|i rest IH]; intros full0 Hpos [j [Hin Hj]]; [contradiction|].
  simpl. inversion Hpos as [|? ? Hi Hrest]; subst.
  destruct (get a i) as [theta|e] eqn:Hg; simpl.
  - destruct (get b i) as [view|e] eqn:Hb; simpl.
    + apply IH; [exact Hrest|].
      destruct Hin as [<-|Hin]; [|exists j; split; assumption].
      exfalso. apply (get_Return_nth _ 0%Q) in Hg; [|exact Hi].
      unfold len in Hj. lia.
    + apply get_Raise_IndexError in Hb. subst e. reflexivity.
  - apply get_Raise_IndexError in Hg. subst e. reflexivity.
Qed.

(** X13.  How [visualhulls_recon] fails.  Without [num_images], or with
    at least one view to carve and no angle list, it raises [TypeError];
    with fewer angles than [num_images] it raises [IndexError]; a
    sinogram without detector columns never yields a slice, and with no
    view to carve the failure is the [ValueError] of the empty range. *)
Theorem visualhulls_failures (angs : option (list Q)) (sino : list (list Q)) (threshold : Q) :
  LoadScan.visualhulls_recon None angs sino threshold = Raise TypeError /\
  (forall k, 1 <= k ->
             LoadScan.visualhulls_recon (Some k) None sino threshold = Raise TypeError) /\
  (forall k a, len a < k ->
               LoadScan.visualhulls_recon (Some k) (Some a) sino threshold
               = Raise IndexError) /\
  (forall n out, LoadScan.visualhulls_recon n angs [] threshold <> Return out) /\
  (forall k, k <= 0 ->
             LoadScan.visualhulls_recon (Some k) angs [] threshold = Raise ValueError).
Proof.
  split; [reflexivity|]. split; [|split; [|split]].
  - intros k Hk. unfold LoadScan.visualhulls_recon, LoadScan.accumulator. simpl.
    unfold range. replace (Z.to_nat (k - 0)) with (S (Z.to_nat (k - 1))) by lia.
    reflexivity.
  - intros k a Hk. unfold LoadScan.visualhulls_recon, LoadScan.accumulator. simpl.
    rewrite carve_views_short_angles; [reflexivity| |].
    + apply Forall_forall. intros i Hi. apply In_range in Hi. lia.
    + exists (len a). split; [|lia]. apply In_range. unfold len in *. lia.
  - intros n out H.
    unfold LoadScan.visualhulls_recon in H.
    destruct (LoadScan.accumulator n angs [] threshold) as [full|e] eqn:Hacc;
      simpl in H; [|discriminate].
    destruct (accumulator_square _ _ _ _ Hacc) as [Hlen _]. simpl in Hlen.
    apply length_zero_iff_nil in Hlen. subst full. discriminate H.
  - intros k Hk. unfold LoadScan.visualhulls_recon, LoadScan.accumulator. simpl.
    unfold range. replace (Z.to_nat (k - 0)) with 0%nat by lia. reflexivity.
Qed.

(** The accumulator cell after the views: what it held before, less one
    penalty [1 - mask] per view. *)
Lemma carve_views_cell (a : list Q) (b : list (list Q)) (width centre : Z) (n : nat)
      (r c : nat) (views : list Z) :
  forall full0 full,
    square n full0 -> (r < n)%nat -> (c < n)%nat ->
    Forall (fun i => 0 <= i) views ->
    LoadScan.carve_views (Some a) b width centre views full0 = Return full ->
    (nth c (nth r full []) 0
     == nth c (nth r full0 []) 0
        - sum (map (fun i =>
                      1 - nth (Z.to_nat (LoadScan.mapping_index width centre
                                           (nth (Z.to_nat i) a 0) r c))
                              (nth (Z.to_nat i) b []) 0)
                   views))%Q.
Proof.
  induction views as [|i rest IH]; intros full0 full Hsq Hr Hc Hpos H; simpl in H.
  - injection H as <-. simpl. ring.
  - inversion Hpos as [|? ? Hi Hrest]; subst.
    destruct (get a i) as [theta|e] eqn:Hg; simpl in H; [|discriminate].
    destruct (get b i) as [view|e] eqn:Hb; simpl in H; [|discriminate].
    apply (get_Return_nth _ 0%Q) in Hg; [|exact Hi]. destruct Hg as [_ Hg].
    apply (get_Return_nth _ []) in Hb; [|exact Hi]. destruct Hb as [_ Hb].
    rewrite (IH _ _ (carve_square width centre theta view Hsq) Hr Hc Hrest H).
    destruct Hsq as [Hlen Hrows].
    rewrite carve_cell.
    + simpl. rewrite Hg, Hb. ring.
    + lia.
    + rewrite Forall_forall in Hrows. rewrite (Hrows (nth r full0 [])); [exact Hc|].
      apply nth_In. lia.
Qed.

(** X14.  The carving itself: when the loop of [visualhulls_recon] ends,
    the accumulator cell in row [r] and column [c] holds 1 less, for
    every view [i] below [num_images], the penalty [1 - mask], where
    [mask] is the entry of the binarised view [i] at the detector column
    the cell projects to under the angle [i], clipped to the detector.  A
    cell that is foreground in every view stays at 1. *)
Theorem accumulator_counts_background
  (k : Z) (a : list Q) (sino : list (list Q)) (threshold : Q) (full : list (list Q))
  (r c : nat) :
  LoadScan.accumulator (Some k) (Some a) sino threshold = Return full ->
  (r < length sino)%nat -> (c < length sino)%nat ->
  let b := LoadScan.binarise_sino (LoadScan.transpose (map (map neg_log) sino)) threshold in
  let mask := fun i : Z =>
                nth (Z.to_nat (LoadScan.mapping_index (len sino) (len sino / 2)
                                 (nth (Z.to_nat i) a 0%Q) r c))
                    (nth (Z.to_nat i) b []) 0%Q in
  (nth c (nth r full []) 0 == 1 - sum (map (fun i => 1 - mask i) (range 0 k)))%Q /\
  ((forall i, 0 <= i < k -> (mask i == 1)%Q) -> (nth c (nth r full []) 0 == 1)%Q).
Proof.
  intros Hacc Hr Hc b mask.
  unfold LoadScan.accumulator in Hacc. simpl in Hacc. fold b in Hacc.
  assert (Hpos : Forall (fun i => 0 <= i) (range 0 k)).
  { apply Forall_forall. intros i Hi. apply In_range in Hi. lia. }
  assert (Hcell := @carve_views_cell a b (len sino) (len sino / 2) (length sino) r c
                     (range 0 k) _ full
                     (ones_square (length sino)) Hr Hc Hpos).
  unfold len in Hacc. rewrite Nat2Z.id in Hacc. specialize (Hcell Hacc).
  rewrite ones_cell in Hcell by assumption.
  split; [exact Hcell|].
  intros Hfg. rewrite Hcell.
  assert (Hsum : (sum (map (fun i => 1 - mask i) (range 0 k)) == 0)%Q).
  { apply sum_zero. apply Forall_forall. intros v Hv.
    apply in_map_iff in Hv. destruct Hv as [i [<- Hi]]. apply In_range in Hi.
    rewrite Hfg by lia. ring. }
  unfold mask in Hsum. rewrite Hsum. ring.
Qed.
End Carving.

Lemma visualhulls_slice_shape_and_range_witness :
  square (length Samples.half_shadow) [[0; 1]; [0; 1]]%Q /\
  Forall (Forall (fun v : Q => v = 0%Q \/ (1 # 2 <= v)%Q)) [[0; 1]; [0; 1]]%Q.
Proof.
  destruct (@visualhulls_slice_shape_and_range Samples.stand_ins (Some 1) (Some [0%Q])
              Samples.half_shadow (1 # 2) [[0; 1]; [0; 1]]%Q eq_refl) as [_ H].
  exact H.
Defined.

Lemma visualhulls_failures_witness :
  LoadScan.visualhulls_recon (E := Samples.stand_ins) (Some 2) None Samples.half_shadow
                             (1 # 2) = Raise TypeError /\
  LoadScan.visualhulls_recon (E := Samples.stand_ins) (Some 2) (Some [0%Q])
                             Samples.half_shadow (1 # 2) = Raise IndexError /\
  LoadScan.visualhulls_recon (E := Samples.stand_ins) (Some 0) None [] (1 # 2)
  = Raise ValueError.
Proof.
  destruct (@visualhulls_failures Samples.stand_ins None Samples.half_shadow (1 # 2))
    as [_ [Htype [Hindex _]]].
  destruct (@visualhulls_failures Samples.stand_ins None [] (1 # 2))
    as [_ [_ [_ [_ Hvalue]]]].
  split; [apply Htype; lia|]. split; [apply Hindex; vm_compute; reflexivity|].
  apply Hvalue. lia.
Defined.

Lemma accumulator_counts_background_witness :
  (nth 1 (nth 0 [[0; 1]; [0; 1]]%Q []) 0 == 1)%Q.
Proof.
  destruct (@accumulator_counts_background Samples.stand_ins 1 [0%Q] Samples.half_shadow
              (1 # 2) [[0; 1]; [0; 1]]%Q 0 1 eq_refl) as [_ Hfg].
  - simpl. lia.
  - simpl. lia.
  - apply Hfg. intros i Hi. assert (i = 0) as -> by lia. vm_compute. reflexivity.
Defined.

(** ** tomo_scan.py: manual and automatic angles, reconstruction *)

Lemma map_outcome_length {A B} (f : A -> outcome B) (l : list A) (d : list B) :
  map_outcome f l = Return d -> length d = length l.
Proof.
  revert d. induction l as [|x l IH]; intros d H; simpl in H.
  - injection H as <-. reflexivity.
  - destruct (f x) as [y|e]; simpl in H; [|discriminate].
    destruct (map_outcome f l) as [ys|e]; simpl in H; [|discriminate].
    injection H as <-. simpl. rewrite (IH ys eq_refl). reflexivity.
Qed.

(** X15.  The numeric branch of [manual_set_angles] in [tomo_scan.py],
    given a valid range and a count [n >= 0], stores [n] angles and keeps
    the first [n] frames of the stack, but never assigns [num_images]:
    that field keeps whatever value it had (0 after [__init__]), so the
    angle list and [num_images] disagree unless they agreed by chance. *)
Theorem tomo_manual_leaves_num_images
  (E : Externals) (ts : TomoScan.TomoScan) (p n r : Z) :
  r = 180 \/ r = 360 -> 0 <= n ->
  exists a,
    TomoScan.manual_set_angles false p (Some n) (Some r) ts
    = (TomoScan.set_im_stack (firstn (Z.to_nat n) (TomoScan.im_stack ts))
         (TomoScan.set_angles_field (Some a) (TomoScan.set_p0 p ts)), Return tt) /\
    len a = n /\
    TomoScan.num_images
      (state_after (TomoScan.manual_set_angles false p (Some n) (Some r) ts))
    = TomoScan.num_images ts.
Proof.
  intros Hr Hn.
  assert (Hc : (r =? 180) || (r =? 360) = true).
  { destruct Hr as [-> | ->]; reflexivity. }
  exists (map (linspace_entry (inject_Z r) n) (seq 0 (Z.to_nat n))).
  assert (Hrun : TomoScan.manual_set_angles false p (Some n) (Some r) ts
                 = (TomoScan.set_im_stack (firstn (Z.to_nat n) (TomoScan.im_stack ts))
                      (TomoScan.set_angles_field
                         (Some (map (linspace_entry (inject_Z r) n) (seq 0 (Z.to_nat n))))
                         (TomoScan.set_p0 p ts)), Return tt)).
  { unfold TomoScan.manual_set_angles, bind, write, assert, lift. simpl.
    rewrite Hc. simpl. rewrite linspace_Return by exact Hn. simpl.
    rewrite slice_upto by exact Hn. reflexivity. }
  split; [exact Hrun|]. split.
  - unfold len. rewrite length_map, length_seq. lia.
  - rewrite Hrun. reflexivity.
Qed.

Lemma tomo_manual_leaves_num_images_witness :
  exists a,
    TomoScan.manual_set_angles (E := Samples.stand_ins) false 5 (Some 1) (Some 360)
                               (TomoScan.init Samples.mirrored)
    = (TomoScan.set_im_stack (firstn (Z.to_nat 1)
                                     (TomoScan.im_stack (TomoScan.init Samples.mirrored)))
         (TomoScan.set_angles_field (Some a)
            (TomoScan.set_p0 5 (TomoScan.init Samples.mirrored))), Return tt) /\
    len a = 1 /\
    TomoScan.num_images
      (state_after (TomoScan.manual_set_angles (E := Samples.stand_ins) false 5 (Some 1)
                      (Some 360) (TomoScan.init Samples.mirrored)))
    = TomoScan.num_images (TomoScan.init Samples.mirrored).
Proof.
  apply (@tomo_manual_leaves_num_images Samples.stand_ins (TomoScan.init Samples.mirrored)
           5 1 360).
  - right. reflexivity.
  - lia.
Defined.

(** X16.  A successful [auto_set_angles] of [tomo_scan.py] with
    [p0 >= 0] sets [p0], reports at least 2 images and fewer than there
    are frames from [p0] on, and stores as many integer angles, starting
    at 0, never descending and ending at 360. *)
Theorem tomo_auto_set_angles_invariant
  (E : Externals) (ts : TomoScan.TomoScan) (order p : Z) :
  0 <= p ->
  outcome_of (TomoScan.auto_set_angles order p ts) = Return tt ->
  exists a n,
    TomoScan.num_images (state_after (TomoScan.auto_set_angles order p ts)) = n /\
    TomoScan.angles (state_after (TomoScan.auto_set_angles order p ts)) = Some a /\
    TomoScan.p0 (state_after (TomoScan.auto_set_angles order p ts)) = p /\
    TomoScan.im_stack (state_after (TomoScan.auto_set_angles order p ts))
    = TomoScan.im_stack ts /\
    2 <= n /\ p + n < len (TomoScan.im_stack ts) /\
    calibrated a n 360.
Proof.
  intros Hp.
  unfold TomoScan.auto_set_angles, bind, write, read, lift, state_after, outcome_of.
  simpl.
  destruct (get (TomoScan.im_stack ts) p) as [f0|e]; [|discriminate].
  destruct (len (TomoScan.im_stack ts) - p <? 0) eqn:Hroom; [discriminate|].
  apply Z.ltb_ge in Hroom.
  destruct (TomoScan.scan_curve _ _ _) as [d|e] eqn:Hd; [|discriminate].
  destruct (argrelmin d order) as [minimas|e] eqn:Hmin; [|discriminate].
  destruct minimas as [|m0 rest]; [discriminate|].
  destruct (argrelmin_inside _ _ m0 Hmin (or_introl eq_refl)) as [Hlo Hhi].
  apply map_outcome_length in Hd. rewrite range_length in Hd.
  unfold get at 1. simpl.
  rewrite linspace_int_Return by lia. simpl. intros _.
  eexists. eexists. repeat split; try reflexivity.
  - lia.
  - lia.
  - apply linspace_int_calibrated. lia.
  - apply linspace_int_calibrated. lia.
  - apply linspace_int_calibrated. lia.
  - apply linspace_int_calibrated. lia.
Qed.

Lemma tomo_auto_set_angles_invariant_witness :
  exists a n,
    TomoScan.num_images
      (state_after (TomoScan.auto_set_angles (E := Samples.stand_ins) 2 0
                      (TomoScan.init Samples.period3))) = n /\
    TomoScan.angles
      (state_after (TomoScan.auto_set_angles (E := Samples.stand_ins) 2 0
                      (TomoScan.init Samples.period3))) = Some a /\
    2 <= n /\ calibrated a n 360.
Proof.
  destruct (@tomo_auto_set_angles_invariant Samples.stand_ins
              (TomoScan.init Samples.period3) 2 0)
    as [a [n [Hn [Ha [_ [_ [H2 [_ Hcal]]]]]]]].
  - lia.
  - vm_compute. reflexivity.
  - exists a, n. split; [exact Hn|]. split; [exact Ha|]. split; [exact H2|exact Hcal].
Defined.



(** ** Averaging and the median pass of [reconstruct] *)

Lemma nth_map_seq_from {A} (f : nat -> A) (a n k : nat) (d : A) :
  (k < n)%nat -> nth k (map f (seq a n)) d = f (a + k)%nat.
Proof.
  intros H. rewrite (nth_indep _ d (f 0%nat)) by (rewrite length_map, length_seq; exact H).
  rewrite (map_nth f). rewrite seq_nth by exact H. reflexivity.
Qed.

(** A pixel seen through a view of consecutive rows, columns and frames. *)
Lemma gather_pixel (base : list (list (list Q))) (r0 h c0 w k0 m k r c : nat) :
  (k < m)%nat -> (r < h)%nat -> (c < w)%nat ->
  LoadScan.pixel (LoadScan.gather base (seq r0 h) (seq c0 w) (seq k0 m)) k r c
  = LoadScan.pixel base (k0 + k) (r0 + r) (c0 + c).
Proof.
  intros Hk Hr Hc. unfold LoadScan.gather, LoadScan.pixel at 1.
  rewrite (nth_map_seq_from _ k0 _ Hk).
  rewrite (nth_map_seq_from _ r0 _ Hr).
  rewrite (nth_map_seq_from _ c0 _ Hc). reflexivity.
Qed.

(** X18.  With [average=True], a reference index inside the stack, a
    positive [num_images] and an offset [cor_offset >= 0] within the
    width, the frame selection raises nothing and returns exactly
    [num_images] frames, frames beyond the last complete group being
    dropped.  Frame [k] of the result is, pixel by pixel, the mean of the
    [rots] neighbouring frames [p0 + k*rots .. p0 + k*rots + rots - 1] of
    the stack, where [rots = (frames - p0) // num_images]. *)
Theorem average_is_mean_of_neighbours (st : LoadScan.LoadProjections) (n : Z) :
  LoadScan.num_images st = Some n -> 1 <= n ->
  0 <= LoadScan.p0 st <= len (LoadScan.im_stack st) ->
  0 <= LoadScan.cor_offset st <= len (hd [] (hd [] (LoadScan.im_stack st))) ->
  let rots := Z.to_nat ((len (LoadScan.im_stack st) - LoadScan.p0 st) / n) in
  exists a,
    LoadScan.select_frames true st = Return (LoadScan.Own a) /\
    len a = n /\
    forall k r c,
      (k < Z.to_nat n)%nat ->
      (r < length (hd [] (LoadScan.im_stack st)))%nat ->
      (c < length (hd [] (hd [] (LoadScan.im_stack st)))
           - Z.to_nat (LoadScan.cor_offset st))%nat ->
      LoadScan.pixel a k r c
      = mean (map (fun t => LoadScan.pixel (LoadScan.im_stack st)
                              (Z.to_nat (LoadScan.p0 st) + (k * rots + t)) r
                              (Z.to_nat (LoadScan.cor_offset st) + c))
                  (seq 0 rots)).
Proof.
  intros Hn Hpos Hp Hcor rots.
  unfold LoadScan.select_frames. rewrite Hn. simpl.
  destruct (n =? 0) eqn:Hz; [apply Z.eqb_eq in Hz; lia|].
  destruct (0 <=? LoadScan.cor_offset st) eqn:Hc0; [|apply Z.leb_gt in Hc0; lia].
  simpl LoadScan.slice_cols. simpl LoadScan.shape. simpl snd. simpl fst.
  unfold len in Hp, Hcor.
  rewrite slice_seq_from by lia. rewrite !length_seq.
  set (N := length (LoadScan.im_stack st)) in *.
  set (q := (Z.of_nat N - LoadScan.p0 st) / n).
  assert (Hq0 : 0 <= q) by (apply Z.div_pos; lia).
  assert (Hq1 : q * n <= Z.of_nat N - LoadScan.p0 st).
  { rewrite Z.mul_comm. apply Z.mul_div_le. lia. }
  simpl LoadScan.slice_frames.
  rewrite slice_seq_window by lia.
  replace (q * n + LoadScan.p0 st - LoadScan.p0 st) with (q * n) by lia.
  simpl LoadScan.contents.
  assert (Hlen : len (LoadScan.gather (LoadScan.im_stack st)
                        (seq 0 (length (hd [] (LoadScan.im_stack st))))
                        (seq (Z.to_nat (LoadScan.cor_offset st))
                             (length (hd [] (hd [] (LoadScan.im_stack st)))
                              - Z.to_nat (LoadScan.cor_offset st)))
                        (seq (Z.to_nat (LoadScan.p0 st)) (Z.to_nat (q * n))))
                 = n * q).
  { unfold LoadScan.gather, len. rewrite length_map, length_seq. lia. }
  rewrite Hlen.
  destruct (0 <=? n) eqn:H1; [|apply Z.leb_gt in H1; lia].
  destruct (0 <=? q) eqn:H2; [|apply Z.leb_gt in H2; lia].
  rewrite Z.eqb_refl. simpl.
  eexists. split; [reflexivity|]. split.
  - unfold LoadScan.mean_of_groups, len. rewrite length_map, length_seq. lia.
  - intros k r c Hk Hr Hc.
    unfold LoadScan.mean_of_groups, LoadScan.pixel at 1.
    rewrite (nth_map_seq_from _ 0 _ Hk).
    rewrite (nth_map_seq_from _ 0 _ Hr).
    rewrite (nth_map_seq_from _ 0 _ Hc).
    simpl Nat.add. f_equal. apply map_ext_in. intros t Ht. apply in_seq in Ht.
    fold (len (LoadScan.im_stack st)) in q. fold N in q.
    assert (Hrots : rots = Z.to_nat q) by reflexivity.
    rewrite gather_pixel; try assumption.
    + reflexivity.
    + fold rots. rewrite Hrots in *.
      assert (Hbound : (k * Z.to_nat q + t < Z.to_nat n * Z.to_nat q)%nat) by nia.
      replace (Z.to_nat (q * n)) with (Z.to_nat n * Z.to_nat q)%nat by nia.
      exact Hbound.
Qed.

Lemma average_is_mean_of_neighbours_witness :
  exists a,
    LoadScan.select_frames true Samples.ramp_scan = Return (LoadScan.Own a) /\
    len a = 2 /\
    LoadScan.pixel a 1 0 0
    = mean (map (fun t => LoadScan.pixel Samples.ramp (0 + (1 * 2 + t)) 0 (0 + 0))
                (seq 0 2)).
Proof.
  destruct (@average_is_mean_of_neighbours Samples.ramp_scan 2 eq_refl)
    as [a [Hsel [Hlen Hpix]]].
  - lia.
  - simpl. vm_compute. split; discriminate.
  - simpl. vm_compute. split; discriminate.
  - exists a. split; [exact Hsel|]. split; [exact Hlen|].
    apply (Hpix 1%nat 0%nat 0%nat); simpl; lia.
Defined.

Section MedianInPlace.
Context {E : Externals}.

Lemma put_row_spec (m : nat) :
  forall (a : nat) (vals row : list Q),
    length vals = m -> (a + m <= length row)%nat ->
    length (LoadScan.put_row (seq a m) vals row) = length row /\
    forall c, nth c (LoadScan.put_row (seq a m) vals row) 0%Q
              = if (a <=? c)%nat && (c <? a + m)%nat then nth (c - a) vals 0%Q
                else nth c row 0%Q.
Proof.
  induction m as [|m IH]; intros a vals row Hv Hrow.
  - simpl. split; [reflexivity|]. intros c.
    destruct (a <=? c)%nat eqn:E1; [|reflexivity].
    destruct (c <? a + 0)%nat eqn:E2; [|reflexivity].
    apply Nat.leb_le in E1. apply Nat.ltb_lt in E2. lia.
  - destruct vals as [|v vals]; [discriminate|]. simpl in Hv.
    simpl seq. simpl LoadScan.put_row.
    destruct (IH (S a) vals (LoadScan.update_nth a (fun _ => v) row)) as [Hl Hn].
    { lia. }
    { rewrite length_update_nth. lia. }
    split; [rewrite Hl; apply length_update_nth|].
    intros c. rewrite Hn.
    destruct (Nat.eq_dec c a) as [->|Hne].
    + replace (S a <=? a)%nat with false by (symmetry; apply Nat.leb_gt; lia).
      rewrite Nat.leb_refl. replace (a <? a + S m)%nat with true
        by (symmetry; apply Nat.ltb_lt; lia).
      simpl. rewrite Nat.sub_diag. simpl.
      apply nth_update_nth_same. lia.
    + rewrite nth_update_nth_other by congruence.
      destruct (S a <=? c)%nat eqn:E1.
      * apply Nat.leb_le in E1.
        replace (a <=? c)%nat with true by (symmetry; apply Nat.leb_le; lia).
        replace (c <? a + S m)%nat with (c <? S a + m)%nat by (f_equal; lia).
        destruct (c <? S a + m)%nat; simpl; [|reflexivity].
        replace (c - a)%nat with (S (c - S a)) by lia. reflexivity.
      * apply Nat.leb_gt in E1.
        replace (a <=? c)%nat with false by (symmetry; apply Nat.leb_gt; lia).
        reflexivity.
Qed.

Lemma put_frame_spec (cs : list nat) (m : nat) :
  forall (a : nat) (new fr : list (list Q)),
    length new = m -> (a + m <= length fr)%nat ->
    length (LoadScan.put_frame (seq a m) cs new fr) = length fr /\
    forall r, nth r (LoadScan.put_frame (seq a m) cs new fr) []
              = if (a <=? r)%nat && (r <? a + m)%nat
                then LoadScan.put_row cs (nth (r - a) new []) (nth r fr [])
                else nth r fr [].
Proof.
  induction m as [|m IH]; intros a new fr Hv Hfr.
  - simpl. split; [reflexivity|]. intros r.
    destruct (a <=? r)%nat eqn:E1; [|reflexivity].
    destruct (r <? a + 0)%nat eqn:E2; [|reflexivity].
    apply Nat.leb_le in E1. apply Nat.ltb_lt in E2. lia.
  - destruct new as [|v new]; [discriminate|]. simpl in Hv.
    simpl seq. simpl LoadScan.put_frame.
    destruct (IH (S a) new (LoadScan.update_nth a (LoadScan.put_row cs v) fr)) as [Hl Hn].
    { lia. }
    { rewrite length_update_nth. lia. }
    split; [rewrite Hl; apply length_update_nth|].
    intros r. rewrite Hn.
    destruct (Nat.eq_dec r a) as [->|Hne].
    + replace (S a <=? a)%nat with false by (symmetry; apply Nat.leb_gt; lia).
      rewrite Nat.leb_refl. replace (a <? a + S m)%nat with true
        by (symmetry; apply Nat.ltb_lt; lia).
      simpl. rewrite Nat.sub_diag. simpl.
      apply nth_update_nth_same. lia.
    + rewrite nth_update_nth_other by congruence.
      destruct (S a <=? r)%nat eqn:E1.
      * apply Nat.leb_le in E1.
        replace (a <=? r)%nat with true by (symmetry; apply Nat.leb_le; lia).
        replace (r <? a + S m)%nat with (r <? S a + m)%nat by (f_equal; lia).
        destruct (r <? S a + m)%nat; simpl; [|reflexivity].
        replace (r - a)%nat with (S (r - S a)) by lia. reflexivity.
      * apply Nat.leb_gt in E1.
        replace (a <=? r)%nat with false by (symmetry; apply Nat.leb_gt; lia).
        reflexivity.
Qed.

Lemma rectangle_row (h w : nat) (f : list (list Q)) (r : nat) :
  rectangle h w f -> (r < h)%nat -> length (nth r f []) = w.
Proof.
  intros [Hlen Hrows] Hr. rewrite Forall_forall in Hrows.
  apply Hrows. apply nth_In. lia.
Qed.

(** Writing a whole frame over a frame of the same shape leaves the new
    frame. *)
Lemma put_frame_whole (h w : nat) (g f : list (list Q)) :
  rectangle h w g -> rectangle h w f ->
  LoadScan.put_frame (seq 0 h) (seq 0 w) g f = g.
Proof.
  intros Hg Hf.
  destruct (@put_frame_spec (seq 0 w) h 0 g f) as [Hl Hn];
    [apply Hg | destruct Hf as [Hf _]; lia |].
  apply (nth_ext _ _ [] []).
  - rewrite Hl. destruct Hg as [-> _]. apply Hf.
  - intros r Hr. rewrite Hl in Hr. destruct Hf as [Hfl Hfr]. rewrite Hfl in Hr.
    rewrite Hn. simpl.
    replace (r <? h)%nat with true by (symmetry; apply Nat.ltb_lt; exact Hr).
    rewrite Nat.sub_0_r.
    assert (Hgr := rectangle_row Hg Hr).
    assert (Hfrow := rectangle_row (conj Hfl Hfr) Hr).
    destruct (@put_row_spec w 0 (nth r g []) (nth r f [])) as [Hl2 Hn2]; [exact Hgr|lia|].
    apply (nth_ext _ _ 0%Q 0%Q).
    + rewrite Hl2. congruence.
    + intros c Hc. rewrite Hl2, Hfrow in Hc. rewrite Hn2. simpl.
      replace (c <? w)%nat with true by (symmetry; apply Nat.ltb_lt; exact Hc).
      rewrite Nat.sub_0_r. reflexivity.
Qed.

(** Reading a whole frame through the view gives the frame. *)
Lemma gather_whole (h w : nat) (base : list (list (list Q))) (k : nat) :
  rectangle h w (nth k base []) ->
  map (fun r => map (fun c => LoadScan.pixel base k r c) (seq 0 w)) (seq 0 h)
  = nth k base [].
Proof.
  intros Hf. apply (nth_ext _ _ [] []).
  - rewrite length_map, length_seq. symmetry. apply Hf.
  - intros r Hr. rewrite length_map, length_seq in Hr.
    rewrite (nth_map_seq_from _ 0 _ Hr). simpl.
    apply (nth_ext _ _ 0%Q 0%Q).
    + rewrite length_map, length_seq. symmetry. apply (rectangle_row Hf Hr).
    + intros c Hc. rewrite length_map, length_seq in Hc.
      rewrite (nth_map_seq_from _ 0 _ Hc). reflexivity.
Qed.

(** The median loop over the frames [a .. a + m - 1] of a view of whole
    frames. *)
Lemma median_loop_in_place (h w : nat) (kernel : Z) :
  (forall f, rectangle h w f ->
             exists g, medfilt f kernel = Return g /\ rectangle h w g) ->
  forall (m a : nat) (s : LoadScan.LoadProjections),
    (forall k, (a <= k < a + m)%nat ->
               (k < length (LoadScan.im_stack s))%nat /\
               rectangle h w (nth k (LoadScan.im_stack s) [])) ->
    exists s',
      for_each (seq a m)
        (fun k =>
           bind (read LoadScan.im_stack)
                (fun base =>
                   bind (lift (medfilt (map (fun r => map (fun c => LoadScan.pixel base k r c)
                                                          (seq 0 w)) (seq 0 h)) kernel))
                        (fun new =>
                           write (fun s0 =>
                                    LoadScan.set_im_stack
                                      (LoadScan.update_nth k
                                         (LoadScan.put_frame (seq 0 h) (seq 0 w) new)
                                         (LoadScan.im_stack s0)) s0)))) s
      = (s', Return tt) /\
      length (LoadScan.im_stack s') = length (LoadScan.im_stack s) /\
      forall k, nth k (LoadScan.im_stack s') []
                = if (a <=? k)%nat && (k <? a + m)%nat
                  then filtered kernel (nth k (LoadScan.im_stack s) [])
                  else nth k (LoadScan.im_stack s) [].
Proof.
  intros Hmed. induction m as [|m IH]; intros a s Hframes.
  - exists s. simpl. split; [reflexivity|]. split; [reflexivity|].
    intros k. destruct (a <=? k)%nat eqn:E1; [|reflexivity].
    destruct (k <? a + 0)%nat eqn:E2; [|reflexivity].
    apply Nat.leb_le in E1. apply Nat.ltb_lt in E2. lia.
  - destruct (Hframes a ltac:(lia)) as [Ha Hrect].
    destruct (Hmed _ Hrect) as [g [Hg Hgrect]].
    simpl seq. simpl for_each.
    set (s1 := LoadScan.set_im_stack
                 (LoadScan.update_nth a (fun _ => g) (LoadScan.im_stack s)) s).
    assert (Hstep :
      bind (read LoadScan.im_stack)
           (fun base =>
              bind (lift (medfilt (map (fun r => map (fun c => LoadScan.pixel base a r c)
                                                     (seq 0 w)) (seq 0 h)) kernel))
                   (fun new =>
                      write (fun s0 =>
                               LoadScan.set_im_stack
                                 (LoadScan.update_nth a
                                    (LoadScan.put_frame (seq 0 h) (seq 0 w) new)
                                    (LoadScan.im_stack s0)) s0))) s
      = (s1, Return tt)).
    { unfold bind, read, lift, write. rewrite (gather_whole _ _ Hrect). rewrite Hg.
      unfold s1. f_equal. f_equal.
      apply (nth_ext _ _ [] []).
      - rewrite !length_update_nth. reflexivity.
      - intros k Hk. rewrite length_update_nth in Hk.
        destruct (Nat.eq_dec k a) as [->|Hne].
        + rewrite !nth_update_nth_same by lia. apply put_frame_whole; assumption.
        + rewrite !nth_update_nth_other by congruence. reflexivity. }
    erewrite bind_Return by exact Hstep.
    assert (Hs1 : LoadScan.im_stack s1
                  = LoadScan.update_nth a (fun _ => g) (LoadScan.im_stack s)) by reflexivity.
    destruct (IH (S a) s1) as [s' [Hrun [Hl Hn]]].
    { intros k Hk. rewrite Hs1. rewrite length_update_nth.
      rewrite nth_update_nth_other by lia. apply Hframes. lia. }
    exists s'. split; [exact Hrun|]. split.
    + rewrite Hl, Hs1. apply length_update_nth.
    + intros k. rewrite Hn, Hs1.
      destruct (Nat.eq_dec k a) as [->|Hne].
      * replace (S a <=? a)%nat with false by (symmetry; apply Nat.leb_gt; lia).
        rewrite Nat.leb_refl.
        replace (a <? a + S m)%nat with true by (symmetry; apply Nat.ltb_lt; lia).
        simpl. rewrite nth_update_nth_same by lia.
        unfold filtered. rewrite Hg. reflexivity.
      * rewrite nth_update_nth_other by congruence.
        destruct (S a <=? k)%nat eqn:E1.
        -- apply Nat.leb_le in E1.
           replace (a <=? k)%nat with true by (symmetry; apply Nat.leb_le; lia).
           replace (k <? a + S m)%nat with (k <? S a + m)%nat by (f_equal; lia).
           reflexivity.
        -- apply Nat.leb_gt in E1.
           replace (a <=? k)%nat with false by (symmetry; apply Nat.leb_gt; lia).
           reflexivity.
Qed.
End MedianInPlace.

Section MedianWritesBack.
Context {E : Externals}.

(** X19.  With [crop=False], [average=False] and [median_filter=True] the
    images of [reconstruct] are a view of the stored stack, so the median
    pass overwrites the stored projections themselves: for a stack of
    [h] by [w] frames, no centre offset and a [medfilt] that returns
    frames of the shape it is given, the frames [p0 .. p0 + num_images - 1]
    of [im_stack] are replaced by their filtered versions and the others
    are left alone, whether or not the slice loop that follows succeeds. *)
Theorem reconstruct_median_filters_stored_frames
  (st : LoadScan.LoadProjections) (n : Z) (h w : nat) (downsample : Z * Z) (kernel : Z)
  (recon_alg : LoadScan.algorithm) (sart_iters : Z) (threshold : Q) (crop_circle : bool) :
  LoadScan.num_images st = Some n ->
  LoadScan.cor_offset st = 0 ->
  0 <= LoadScan.p0 st -> 0 <= n ->
  LoadScan.p0 st + n <= len (LoadScan.im_stack st) ->
  length (hd [] (LoadScan.im_stack st)) = h ->
  length (hd [] (hd [] (LoadScan.im_stack st))) = w ->
  Forall (rectangle h w) (LoadScan.im_stack st) ->
  (forall f, rectangle h w f ->
             exists g, medfilt f kernel = Return g /\ rectangle h w g) ->
  length (LoadScan.im_stack
            (state_after (LoadScan.reconstruct downsample false true kernel recon_alg
                            sart_iters threshold crop_circle false st)))
  = length (LoadScan.im_stack st) /\
  forall k : nat,
    nth k (LoadScan.im_stack
             (state_after (LoadScan.reconstruct downsample false true kernel recon_alg
                             sart_iters threshold crop_circle false st))) []
    = if (LoadScan.p0 st <=? Z.of_nat k) && (Z.of_nat k <? LoadScan.p0 st + n)
      then filtered kernel (nth k (LoadScan.im_stack st) [])
      else nth k (LoadScan.im_stack st) [].
Proof.
  intros Hn Hcor Hp Hn0 Hin Hh Hw Hall Hmed.
  unfold len in Hin.
  assert (Hpre : LoadScan.preprocess downsample false false st
                 = Return (LoadScan.View (seq 0 h) (seq 0 w)
                             (seq (Z.to_nat (LoadScan.p0 st)) (Z.to_nat n)))).
  { unfold LoadScan.preprocess, LoadScan.select_frames.
    rewrite Hn, Hcor, Hh, Hw. simpl.
    rewrite slice_seq_from by lia. rewrite slice_seq_window by lia.
    simpl. rewrite Nat.sub_0_r. do 3 f_equal. lia. }
  set (s0 := LoadScan.set_recon_data (Some (repeat (LoadScan.zeros w w) h)) st).
  destruct (@median_loop_in_place E h w kernel Hmed (Z.to_nat n)
              (Z.to_nat (LoadScan.p0 st)) s0) as [s' [Hrun [Hl Hk]]].
  { intros k Hk. change (LoadScan.im_stack s0) with (LoadScan.im_stack st).
    split; [lia|].
    rewrite Forall_forall in Hall. apply Hall. apply nth_In. lia. }
  change (LoadScan.im_stack s0) with (LoadScan.im_stack st) in Hl, Hk.
  assert (Hstack :
    LoadScan.im_stack
      (state_after (LoadScan.reconstruct downsample false true kernel recon_alg
                      sart_iters threshold crop_circle false st))
    = LoadScan.im_stack s').
  { unfold LoadScan.reconstruct.
    erewrite bind_Return by reflexivity.
    erewrite bind_Return by (unfold lift; rewrite Hpre; reflexivity).
    cbv zeta. simpl LoadScan.shape. simpl fst. simpl snd.
    rewrite !length_seq.
    erewrite bind_Return by reflexivity.
    fold s0.
    erewrite bind_Return
      by (unfold LoadScan.median_pass; erewrite bind_Return by exact Hrun; reflexivity).
    match goal with
    | |- LoadScan.im_stack (state_after (?m s')) = _ =>
        assert (Hkeep : keeps LoadScan.im_stack m) by keep_field;
        apply Hkeep
    end. }
  rewrite Hstack. split; [exact Hl|].
  intros k. rewrite Hk.
  replace (Z.to_nat (LoadScan.p0 st) <=? k)%nat with (LoadScan.p0 st <=? Z.of_nat k).
  2:{ destruct (LoadScan.p0 st <=? Z.of_nat k) eqn:E1; symmetry.
      - apply Z.leb_le in E1. apply Nat.leb_le. lia.
      - apply Z.leb_gt in E1. apply Nat.leb_gt. lia. }
  replace (k <? Z.to_nat (LoadScan.p0 st) + Z.to_nat n)%nat
    with (Z.of_nat k <? LoadScan.p0 st + n).
  2:{ destruct (Z.of_nat k <? LoadScan.p0 st + n) eqn:E1; symmetry.
      - apply Z.ltb_lt in E1. apply Nat.ltb_lt. lia.
      - apply Z.ltb_ge in E1. apply Nat.ltb_ge. lia. }
  reflexivity.
Qed.
End MedianWritesBack.

Lemma reconstruct_median_filters_stored_frames_witness :
  length (LoadScan.im_stack
            (state_after (LoadScan.reconstruct (E := Samples.blanking) (4, 4) false true 9
                            LoadScan.Fbp 1 (1 # 2) false false
                            (LoadScan.set_num_images (Some 2)
                               (LoadScan.init [[[5]]; [[6]]; [[7]]; [[8]]]%Q)))))
  = 4%nat /\
  forall k : nat,
    nth k (LoadScan.im_stack
             (state_after (LoadScan.reconstruct (E := Samples.blanking) (4, 4) false true 9
                             LoadScan.Fbp 1 (1 # 2) false false
                             (LoadScan.set_num_images (Some 2)
                                (LoadScan.init [[[5]]; [[6]]; [[7]]; [[8]]]%Q))))) []
    = if (0 <=? Z.of_nat k) && (Z.of_nat k <? 0 + 2)
      then filtered (E := Samples.blanking) 9 (nth k [[[5]]; [[6]]; [[7]]; [[8]]]%Q [])
      else nth k [[[5]]; [[6]]; [[7]]; [[8]]]%Q [].
Proof.
  apply (@reconstruct_median_filters_stored_frames Samples.blanking
           (LoadScan.set_num_images (Some 2) (LoadScan.init [[[5]]; [[6]]; [[7]]; [[8]]]%Q))
           2 1%nat 1%nat (4, 4) 9 LoadScan.Fbp 1 (1 # 2) false).
  - reflexivity.
  - reflexivity.
  - simpl. lia.
  - lia.
  - vm_compute. discriminate.
  - reflexivity.
  - reflexivity.
  - repeat constructor.
  - intros f [Hl Hr]. eexists. split; [reflexivity|]. split.
    + rewrite length_map. exact Hl.
    + apply Forall_map. apply (Forall_impl _ (P := fun row => length row = 1%nat)); [|exact Hr].
      intros row Hrow. rewrite length_map. exact Hrow.
Defined.
